(** * AXTSoundSystem: the sound registry of SoundSystem.cpp

    A shallow embedding of [SoundSystem.cpp].  The file keeps two globals, the
    miniaudio engine [g_engine] and the registry
    [std::map<std::string, ma_sound*> g_loadedSounds], and exports sixteen
    [extern "C"] functions that look an identifier up and drive the engine.

    - The registry is a [gmap string ptr]; the [ma_sound] objects it points to
      live in a heap ([new]/[delete]), so that allocation and release are
      visible.  Dereferencing an address that is not live is undefined
      behaviour and makes a run return [None].
    - miniaudio itself ([miniaudio.h]) is an external library: it is taken as
      a parameter, the class [MiniAudio], whose operations act on the state of
      one sound object.  Every result code ([ma_result]) stays free, because
      the source branches on it: what a function of this file does itself
      (which calls it makes, what it prints, what it changes in the registry)
      is stated for every answer of the engine.  What a call does to a
      sound's position and playing state is the engine's business; where a
      statement needs it, it assumes [engine_contract].
    - Every engine call, every allocation and every diagnostic line is
      appended to a trace, in program order.
    - [float] arguments are IEEE values ([spec_float]); [const char*]
      arguments are [option string], [None] being the null pointer.
    - The mixing thread of the engine is not modelled: a statement speaks of
      the state a call is made in and the state it leaves. *)

From Stdlib Require Import ZArith NArith String List Bool.
From Stdlib Require Import Floats.SpecFloat.
From stdpp Require Import gmap strings list sorting.

Local Open Scope Z_scope.

(** ** C and C++ data *)

(** A C [float]: an IEEE 754 value, with its zeros, infinities and NaN.
    [spec_float] leaves the format open; binary32 has precision 24 and
    maximal exponent 128, and [float_valid] tells its values apart.  The
    statements below hold for every [spec_float], hence for every binary32
    value, and their examples are binary32 values. *)
Definition float : Type := spec_float.

Definition float_valid (f : float) : bool := valid_binary 24 128 f.

(** The literals of the source: [0.0f], [1.0f], [-1.0f], [0.001f]. *)
Definition f_0_0 : float := S754_zero false.
Definition f_1_0 : float := S754_finite false 8388608 (-23).
Definition f_neg_1_0 : float := S754_finite true 8388608 (-23).
Definition f_0_001 : float := S754_finite false 8589935 (-33).

(** The other literals of the specification's examples: [1.5f], [-0.2f]
    (the binary32 nearest to -0.2) and [-2.0f]. *)
Definition f_1_5 : float := S754_finite false 12582912 (-23).
Definition f_neg_0_2 : float := S754_finite true 13421773 (-26).
Definition f_neg_2_0 : float := S754_finite true 8388608 (-22).

(** [a < b] and [a <= b] on floats: false as soon as one side is NaN. *)
Definition float_lt (a b : float) : bool := SFltb a b.
Definition float_le (a b : float) : bool := SFleb a b.

Definition is_nan (f : float) : bool :=
  match f with S754_nan => true | _ => false end.

(** [std::clamp(v, lo, hi)]: [lo] if [v < lo], [hi] if [hi < v], otherwise
    [v] (C++17 [alg.clamp]; libstdc++, libc++ and the Microsoft library all
    compute it with these two comparisons, so that a NaN, for which both
    are false, is returned as it is). *)
Definition std_clamp (v lo hi : float) : float :=
  if float_lt v lo then lo else if float_lt hi v then hi else v.

(** Addresses of heap objects; [NULL] is address 0. *)
Abbreviation ptr := N (only parsing).
Definition NULL : ptr := 0%N.

(** [ma_result] is an integer enumeration whose value 0 is [MA_SUCCESS];
    [MA_SOUND_FLAG_DECODE] is the flag 0x00000002 (both from miniaudio.h). *)
Definition ma_result : Type := Z.
Definition MA_SUCCESS : ma_result := 0.
Definition MA_SOUND_FLAG_DECODE : Z := 2.

(** [MessageBoxA] flags (windows.h). *)
Definition MB_OK : Z := 0.
Definition MB_ICONERROR : Z := 16.
Definition MB_ICONWARNING : Z := 48.

(** ** The miniaudio interface *)

(** The part of miniaudio the source calls.  [ma_sound] is the state of one
    sound object, [ma_engine] the state of the engine; a call that takes a
    [ma_sound*] is a function of that object's state.  Functions that return
    [ma_result] in C return it here beside the new state.
    [sound_get_cursor_in_pcm_frames] is the playback position; the source
    never calls it, the statements about positions do. *)
Class MiniAudio := {
  ma_engine : Type;
  ma_engine_config : Type;
  ma_sound : Type;
  engine_config_init : ma_engine_config;
  engine_init : ma_engine_config -> ma_engine -> ma_result * ma_engine;
  engine_uninit : ma_engine -> ma_engine;
  engine_set_volume : ma_engine -> float -> ma_engine;
  engine_listener_set_position : ma_engine -> Z -> float -> float -> float -> ma_engine;
  engine_listener_set_direction : ma_engine -> Z -> float -> float -> float -> ma_engine;
  sound_value_init : ma_sound;
  sound_init_from_file : ma_engine -> string -> Z -> ma_sound -> ma_result * ma_sound;
  sound_uninit : ma_sound -> ma_sound;
  sound_is_playing : ma_sound -> bool;
  sound_start : ma_sound -> ma_result * ma_sound;
  sound_stop : ma_sound -> ma_result * ma_sound;
  sound_seek_to_pcm_frame : ma_sound -> N -> ma_result * ma_sound;
  sound_set_looping : ma_sound -> bool -> ma_sound;
  sound_set_volume : ma_sound -> float -> ma_sound;
  sound_set_pan : ma_sound -> float -> ma_sound;
  sound_set_pitch : ma_sound -> float -> ma_sound;
  sound_set_position : ma_sound -> float -> float -> float -> ma_sound;
  sound_get_cursor_in_pcm_frames : ma_sound -> N
}.

(** What the build and the C++ runtime decide: whether [_WIN32] is defined,
    and the address [new (std::nothrow)] returns given the live addresses
    ([NULL] when memory is exhausted, otherwise an address not in use). *)
Class Platform := {
  WIN32 : bool;
  new_nothrow : gset ptr -> ptr;
  new_nothrow_fresh : forall live : gset ptr,
    new_nothrow live = NULL \/ new_nothrow live ∉ live
}.

(** ** The trace *)

(** What is inserted into a stream with [<<]. *)
Inductive piece :=
| Str (s : string)
| Res (r : ma_result)
| Flt (f : float).

Definition message : Type := list piece.

(** One call into miniaudio, with its arguments and what it returned. *)
Inductive call :=
| Call_ma_engine_init (r : ma_result)
| Call_ma_engine_uninit
| Call_ma_engine_set_volume (volume : float)
| Call_ma_engine_listener_set_position (index : Z) (x y z : float)
| Call_ma_engine_listener_set_direction (index : Z) (x y z : float)
| Call_ma_sound_init_from_file (path : string) (flags : Z) (p : ptr) (r : ma_result)
| Call_ma_sound_uninit (p : ptr)
| Call_ma_sound_is_playing (p : ptr) (b : bool)
| Call_ma_sound_start (p : ptr) (r : ma_result)
| Call_ma_sound_stop (p : ptr) (r : ma_result)
| Call_ma_sound_seek_to_pcm_frame (p : ptr) (frame : N) (r : ma_result)
| Call_ma_sound_set_looping (p : ptr) (loop : bool)
| Call_ma_sound_set_volume (p : ptr) (volume : float)
| Call_ma_sound_set_pan (p : ptr) (pan : float)
| Call_ma_sound_set_pitch (p : ptr) (pitch : float)
| Call_ma_sound_set_position (p : ptr) (x y z : float).

Inductive event :=
| MessageBoxA (text : message) (caption : string) (uType : Z)
| Cout (text : message)
| Cerr (text : message)
| New (p : ptr)
| Delete (p : ptr)
| Engine (c : call).

(** ** The program state and its monad *)

Section SoundSystem.
Context {MA : MiniAudio} {PF : Platform}.

Record world := World {
  g_engine : ma_engine;
  g_loadedSounds : gmap string ptr;
  heap : gmap ptr ma_sound;
  trace : list event
}.

Definition set_engine (e : ma_engine) (w : world) : world :=
  World e (g_loadedSounds w) (heap w) (trace w).
Definition set_loadedSounds (m : gmap string ptr) (w : world) : world :=
  World (g_engine w) m (heap w) (trace w).
Definition set_heap (h : gmap ptr ma_sound) (w : world) : world :=
  World (g_engine w) (g_loadedSounds w) h (trace w).
Definition set_trace (t : list event) (w : world) : world :=
  World (g_engine w) (g_loadedSounds w) (heap w) t.

(** A computation reads and writes the world; [None] is undefined behaviour
    (a dangling or null [ma_sound*] is dereferenced or deleted). *)
Definition M (A : Type) : Type := world -> option (A * world).

Definition ret {A} (a : A) : M A := fun w => Some (a, w).
Definition bind {A B} (m : M A) (k : A -> M B) : M B :=
  fun w => match m w with Some (a, w') => k a w' | None => None end.

End SoundSystem.

Declare Scope M_scope.
Delimit Scope M_scope with M.
Notation "x <- m ;; k" := (bind m (fun x => k))
  (at level 100, m at next level, k at level 200, right associativity) : M_scope.
Notation "m ;; k" := (bind m (fun _ => k))
  (at level 100, k at level 200, right associativity) : M_scope.
Local Open Scope M_scope.

(** The order of the keys of [std::map<std::string, _>]: [std::string]'s
    [<], which compares byte by byte. *)
Definition key_le (a b : string * ptr) : Prop := String.leb a.1 b.1 = true.
#[global] Instance key_le_dec (a b : string * ptr) : Decision (key_le a b).
Proof. unfold key_le. apply _. Defined.

Section Primitives.
Context {MA : MiniAudio} {PF : Platform}.

Definition emit (e : event) : M unit :=
  fun w => Some (tt, set_trace (trace w ++ [e]) w).

(** [#ifdef _WIN32 ... #endif] *)
Definition ifdef_WIN32 (m : M unit) : M unit :=
  if WIN32 then m else ret tt.

(** The two diagnostic idioms of the source: a message box (Windows only)
    with the error or the warning icon, then the same text on [std::cerr]. *)
Definition report_error (text : message) : M unit :=
  ifdef_WIN32 (emit (MessageBoxA text "Sound System Error" (Z.lor MB_ICONERROR MB_OK))) ;;
  emit (Cerr text).
Definition report_warning (text : message) : M unit :=
  ifdef_WIN32 (emit (MessageBoxA text "Sound System Warning" (Z.lor MB_ICONWARNING MB_OK))) ;;
  emit (Cerr text).
Definition cout (text : message) : M unit := emit (Cout text).

(** [g_loadedSounds.find(key)]: [Some p] stands for an iterator other than
    [end()] whose [second] is [p]. *)
Definition find (key : string) : M (option ptr) :=
  fun w => Some (g_loadedSounds w !! key, w).
(** [g_loadedSounds.count(key)] *)
Definition count (key : string) : M Z :=
  fun w => Some (match g_loadedSounds w !! key with Some _ => 1 | None => 0 end, w).
(** [g_loadedSounds[key] = p] *)
Definition assign (key : string) (p : ptr) : M unit :=
  fun w => Some (tt, set_loadedSounds (<[key := p]> (g_loadedSounds w)) w).
(** [g_loadedSounds.erase(it)] *)
Definition erase (key : string) : M unit :=
  fun w => Some (tt, set_loadedSounds (delete key (g_loadedSounds w)) w).
(** [g_loadedSounds.clear()] *)
Definition clear : M unit :=
  fun w => Some (tt, set_loadedSounds ∅ w).

(** [std::map] iterates in the order of its keys. *)
Definition begin_to_end : M (list (string * ptr)) :=
  fun w => Some (merge_sort key_le (map_to_list (g_loadedSounds w)), w).

(** [new (std::nothrow) ma_sound()]: a value-initialised object at a fresh
    address, or [NULL]. *)
Definition new_ma_sound : M ptr :=
  fun w =>
    let p := new_nothrow (dom (heap w)) in
    if (p =? NULL)%N then Some (NULL, set_trace (trace w ++ [New NULL]) w)
    else Some (p, set_trace (trace w ++ [New p])
                    (set_heap (<[p := sound_value_init]> (heap w)) w)).

(** [delete p]: nothing for [NULL], undefined for an address not live. *)
Definition delete_ma_sound (p : ptr) : M unit :=
  fun w =>
    if (p =? NULL)%N then Some (tt, set_trace (trace w ++ [Delete p]) w)
    else match heap w !! p with
         | Some _ => Some (tt, set_trace (trace w ++ [Delete p])
                                 (set_heap (delete p (heap w)) w))
         | None => None
         end.

(** A miniaudio call on the object at [p]: the object is read, updated in
    place, and the call is recorded with its result. *)
Definition on_sound {A} (p : ptr) (f : ma_sound -> A * ma_sound)
    (c : A -> call) : M A :=
  fun w =>
    match heap w !! p with
    | Some s =>
        Some ((f s).1, set_trace (trace w ++ [Engine (c (f s).1)])
                         (set_heap (<[p := (f s).2]> (heap w)) w))
    | None => None
    end.

Definition ma_sound_init_from_file (filePath : string) (flags : Z) (p : ptr)
    : M ma_result :=
  fun w =>
    on_sound p (sound_init_from_file (g_engine w) filePath flags)
      (Call_ma_sound_init_from_file filePath flags p) w.
Definition ma_sound_uninit (p : ptr) : M unit :=
  on_sound p (fun s => (tt, sound_uninit s)) (fun _ => Call_ma_sound_uninit p).
Definition ma_sound_is_playing (p : ptr) : M bool :=
  on_sound p (fun s => (sound_is_playing s, s)) (Call_ma_sound_is_playing p).
Definition ma_sound_start (p : ptr) : M ma_result :=
  on_sound p sound_start (Call_ma_sound_start p).
Definition ma_sound_stop (p : ptr) : M ma_result :=
  on_sound p sound_stop (Call_ma_sound_stop p).
Definition ma_sound_seek_to_pcm_frame (p : ptr) (frame : N) : M ma_result :=
  on_sound p (fun s => sound_seek_to_pcm_frame s frame)
    (Call_ma_sound_seek_to_pcm_frame p frame).
Definition ma_sound_set_looping (p : ptr) (loop : bool) : M unit :=
  on_sound p (fun s => (tt, sound_set_looping s loop))
    (fun _ => Call_ma_sound_set_looping p loop).
Definition ma_sound_set_volume (p : ptr) (volume : float) : M unit :=
  on_sound p (fun s => (tt, sound_set_volume s volume))
    (fun _ => Call_ma_sound_set_volume p volume).
Definition ma_sound_set_pan (p : ptr) (pan : float) : M unit :=
  on_sound p (fun s => (tt, sound_set_pan s pan))
    (fun _ => Call_ma_sound_set_pan p pan).
Definition ma_sound_set_pitch (p : ptr) (pitch : float) : M unit :=
  on_sound p (fun s => (tt, sound_set_pitch s pitch))
    (fun _ => Call_ma_sound_set_pitch p pitch).
Definition ma_sound_set_position (p : ptr) (x y z : float) : M unit :=
  on_sound p (fun s => (tt, sound_set_position s x y z))
    (fun _ => Call_ma_sound_set_position p x y z).

(** Calls on [&g_engine]. *)
Definition ma_engine_init (config : ma_engine_config) : M ma_result :=
  fun w =>
    let result := engine_init config (g_engine w) in
    Some (result.1, set_trace (trace w ++ [Engine (Call_ma_engine_init result.1)])
                      (set_engine result.2 w)).
Definition on_engine (f : ma_engine -> ma_engine) (c : call) : M unit :=
  fun w => Some (tt, set_trace (trace w ++ [Engine c]) (set_engine (f (g_engine w)) w)).
Definition ma_engine_uninit : M unit :=
  on_engine engine_uninit Call_ma_engine_uninit.
Definition ma_engine_set_volume (volume : float) : M unit :=
  on_engine (fun e => engine_set_volume e volume) (Call_ma_engine_set_volume volume).
Definition ma_engine_listener_set_position (index : Z) (x y z : float) : M unit :=
  on_engine (fun e => engine_listener_set_position e index x y z)
    (Call_ma_engine_listener_set_position index x y z).
Definition ma_engine_listener_set_direction (index : Z) (x y z : float) : M unit :=
  on_engine (fun e => engine_listener_set_direction e index x y z)
    (Call_ma_engine_listener_set_direction index x y z).

(** A range-based [for] over the entries. *)
Fixpoint for_each {A} (l : list A) (body : A -> M unit) : M unit :=
  match l with
  | [] => ret tt
  | x :: l' => body x ;; for_each l' body
  end.

End Primitives.

(** ** The exported functions *)

Section API.
Context {MA : MiniAudio} {PF : Platform}.

Definition InitializeSoundSystem : M bool :=
  let engineConfig := engine_config_init in
  result <- ma_engine_init engineConfig ;;
  if negb (result =? MA_SUCCESS) then
    report_error [Str "SoundSystem ERROR: Failed to initialize miniaudio engine. Result: ";
                  Res result] ;;
    ret false
  else
    cout [Str "SoundSystem: Initialized successfully."] ;;
    ret true.

Definition ShutdownSoundSystem : M unit :=
  entries <- begin_to_end ;;
  for_each entries (fun '(soundId, soundPtr) =>
    if negb (soundPtr =? NULL)%N then
      ma_sound_uninit soundPtr ;;
      delete_ma_sound soundPtr
    else ret tt) ;;
  clear ;;
  ma_engine_uninit ;;
  cout [Str "SoundSystem: Shut down successfully."].

Definition LoadSound (filePath soundId : option string) : M bool :=
  match filePath, soundId with
  | Some filePath, Some s_soundId =>
      n <- count s_soundId ;;
      if negb (n =? 0) then
        report_warning [Str "SoundSystem WARNING: Sound ID '"; Str s_soundId;
                        Str "' already loaded. Ignoring."] ;;
        ret true
      else
        pSound <- new_ma_sound ;;
        if (pSound =? NULL)%N then
          report_error [Str "SoundSystem ERROR: Failed to allocate memory for new sound."] ;;
          ret false
        else
          result <- ma_sound_init_from_file filePath MA_SOUND_FLAG_DECODE pSound ;;
          if negb (result =? MA_SUCCESS) then
            report_error [Str "SoundSystem ERROR: Failed to load sound '"; Str filePath;
                          Str "'. Result: "; Res result] ;;
            delete_ma_sound pSound ;;
            ret false
          else
            assign s_soundId pSound ;;
            cout [Str "SoundSystem: Loaded sound '"; Str filePath; Str "' as ID '";
                  Str s_soundId; Str "'."] ;;
            ret true
  | _, _ =>
      report_error [Str "SoundSystem ERROR: LoadSound received null filePath or soundId."] ;;
      ret false
  end.

Definition UnloadSound (soundId : option string) : M unit :=
  match soundId with
  | None => report_error [Str "SoundSystem ERROR: UnloadSound received null soundId."]
  | Some s_soundId =>
      it <- find s_soundId ;;
      match it with
      | Some it_second =>
          playing <- ma_sound_is_playing it_second ;;
          (if playing then (ma_sound_stop it_second ;; ret tt) else ret tt) ;;
          ma_sound_uninit it_second ;;
          delete_ma_sound it_second ;;
          erase s_soundId ;;
          cout [Str "SoundSystem: Unloaded sound with ID '"; Str s_soundId; Str "'."]
      | None =>
          report_warning [Str "SoundSystem WARNING: Attempted to unload non-existent sound ID '";
                          Str s_soundId; Str "'."]
      end
  end.

Definition SndPlaySound (soundId : option string) (loop : bool) : M unit :=
  match soundId with
  | None => report_error [Str "SoundSystem ERROR: SndPlaySound received null soundId."]
  | Some s_soundId =>
      it <- find s_soundId ;;
      match it with
      | Some pSound =>
          playing <- ma_sound_is_playing pSound ;;
          (if playing then
             (ma_sound_stop pSound ;;
              ma_sound_seek_to_pcm_frame pSound 0 ;;
              ret tt)
           else ret tt) ;;
          ma_sound_set_looping pSound loop ;;
          result <- ma_sound_start pSound ;;
          if negb (result =? MA_SUCCESS) then
            report_error [Str "SoundSystem ERROR: Failed to play sound with ID '";
                          Str s_soundId; Str "'. Result: "; Res result]
          else
            cout [Str "SoundSystem: Playing sound ID '"; Str s_soundId;
                  Str "' (Looping: "; Str (if loop then "Yes" else "No"); Str ")."]
      | None =>
          report_warning [Str "SoundSystem WARNING: Attempted to play non-existent sound ID '";
                          Str s_soundId; Str "'."]
      end
  end.

Definition StopSound (soundId : option string) : M unit :=
  match soundId with
  | None => report_error [Str "SoundSystem ERROR: StopSound received null soundId."]
  | Some s_soundId =>
      it <- find s_soundId ;;
      match it with
      | Some pSound =>
          playing <- ma_sound_is_playing pSound ;;
          if playing then
            result <- ma_sound_stop pSound ;;
            if negb (result =? MA_SUCCESS) then
              report_error [Str "SoundSystem ERROR: Failed to stop sound with ID '";
                            Str s_soundId; Str "'. Result: "; Res result]
            else
              ma_sound_seek_to_pcm_frame pSound 0 ;;
              cout [Str "SoundSystem: Stopped sound ID '"; Str s_soundId; Str "'."]
          else
            cout [Str "SoundSystem: Sound ID '"; Str s_soundId;
                  Str "' is not playing. No action needed."]
      | None =>
          report_warning [Str "SoundSystem WARNING: Attempted to stop non-existent sound ID '";
                          Str s_soundId; Str "'."]
      end
  end.

Definition PauseSound (soundId : option string) : M unit :=
  match soundId with
  | None => report_error [Str "SoundSystem ERROR: PauseSound received null soundId."]
  | Some s_soundId =>
      it <- find s_soundId ;;
      match it with
      | Some pSound =>
          result <- ma_sound_stop pSound ;;
          if negb (result =? MA_SUCCESS) then
            report_error [Str "SoundSystem ERROR: Failed to pause sound with ID '";
                          Str s_soundId; Str "'. Result: "; Res result]
          else
            cout [Str "SoundSystem: Paused sound ID '"; Str s_soundId; Str "'."]
      | None =>
          report_warning [Str "SoundSystem WARNING: Attempted to pause non-existent sound ID '";
                          Str s_soundId; Str "'."]
      end
  end.

Definition ResumeSound (soundId : option string) : M unit :=
  match soundId with
  | None => report_error [Str "SoundSystem ERROR: ResumeSound received null soundId."]
  | Some s_soundId =>
      it <- find s_soundId ;;
      match it with
      | Some pSound =>
          result <- ma_sound_start pSound ;;
          if negb (result =? MA_SUCCESS) then
            report_error [Str "SoundSystem ERROR: Failed to resume sound with ID '";
                          Str s_soundId; Str "'. Result: "; Res result]
          else
            cout [Str "SoundSystem: Resumed sound ID '"; Str s_soundId; Str "'."]
      | None =>
          report_warning [Str "SoundSystem WARNING: Attempted to resume non-existent sound ID '";
                          Str s_soundId; Str "'."]
      end
  end.

Definition SetMasterVolume (volume : float) : M unit :=
  let volume := std_clamp volume f_0_0 f_1_0 in
  ma_engine_set_volume volume ;;
  cout [Str "SoundSystem: Master volume set to "; Flt volume; Str "."].

Definition SetSoundVolume (soundId : option string) (volume : float) : M unit :=
  match soundId with
  | None => report_error [Str "SoundSystem ERROR: SetSoundVolume received null soundId."]
  | Some s_soundId =>
      it <- find s_soundId ;;
      match it with
      | Some pSound =>
          let volume := std_clamp volume f_0_0 f_1_0 in
          ma_sound_set_volume pSound volume ;;
          cout [Str "SoundSystem: Volume for sound ID '"; Str s_soundId;
                Str "' set to "; Flt volume; Str "."]
      | None =>
          report_warning [Str "SoundSystem WARNING: Attempted to set volume for non-existent sound ID '";
                          Str s_soundId; Str "'."]
      end
  end.

Definition SetSoundPan (soundId : option string) (pan : float) : M unit :=
  match soundId with
  | None => report_error [Str "SoundSystem ERROR: SetSoundPan received null soundId."]
  | Some s_soundId =>
      it <- find s_soundId ;;
      match it with
      | Some pSound =>
          let pan := std_clamp pan f_neg_1_0 f_1_0 in
          ma_sound_set_pan pSound pan ;;
          cout [Str "SoundSystem: Pan for sound ID '"; Str s_soundId;
                Str "' set to "; Flt pan; Str "."]
      | None =>
          report_warning [Str "SoundSystem WARNING: Attempted to set pan for non-existent sound ID '";
                          Str s_soundId; Str "'."]
      end
  end.

Definition SetSoundPitch (soundId : option string) (pitch : float) : M unit :=
  match soundId with
  | None => report_error [Str "SoundSystem ERROR: SetSoundPitch received null soundId."]
  | Some s_soundId =>
      it <- find s_soundId ;;
      match it with
      | Some pSound =>
          let pitch := if float_le pitch f_0_0 then f_0_001 else pitch in
          ma_sound_set_pitch pSound pitch ;;
          cout [Str "SoundSystem: Pitch for sound ID '"; Str s_soundId;
                Str "' set to "; Flt pitch; Str "."]
      | None =>
          report_warning [Str "SoundSystem WARNING: Attempted to set pitch for non-existent sound ID '";
                          Str s_soundId; Str "'."]
      end
  end.

Definition SetSoundPosition (soundId : option string) (x y z : float) : M unit :=
  match soundId with
  | None => report_error [Str "SoundSystem ERROR: SetSoundPosition received null soundId."]
  | Some s_soundId =>
      it <- find s_soundId ;;
      match it with
      | Some pSound =>
          ma_sound_set_position pSound x y z ;;
          cout [Str "SoundSystem: Position for sound ID '"; Str s_soundId;
                Str "' set to ("; Flt x; Str ", "; Flt y; Str ", "; Flt z; Str ")."]
      | None =>
          report_warning [Str "SoundSystem WARNING: Attempted to set position for non-existent sound ID '";
                          Str s_soundId; Str "'."]
      end
  end.

Definition SetListenerPosition (x y z : float) : M unit :=
  ma_engine_listener_set_position 0 x y z ;;
  cout [Str "SoundSystem: Listener position set to ("; Flt x; Str ", "; Flt y;
        Str ", "; Flt z; Str ")."].

Definition SetListenerOrientation (forwardX forwardY forwardZ : float) : M unit :=
  ma_engine_listener_set_direction 0 forwardX forwardY forwardZ ;;
  cout [Str "SoundSystem: Listener orientation set (Forward: ("; Flt forwardX;
        Str ", "; Flt forwardY; Str ", "; Flt forwardZ; Str "))."].

Definition IsSoundPlaying (soundId : option string) : M bool :=
  match soundId with
  | None => ret false
  | Some s_soundId =>
      it <- find s_soundId ;;
      match it with
      | Some it_second => ma_sound_is_playing it_second
      | None => ret false
      end
  end.

End API.

(** ** A reference engine *)

(** Modelled from the spec: the external audio engine, as the collaborator
    contract of section 6 and the state machine of section 4.2 describe it.
    A sound is stopped or playing at a frame; [stop] and [start] switch the
    playing flag and leave the frame, [seekToFrame] sets the frame; a
    transition answers ok or error.  The instance is used to run the
    embedding on concrete inputs; the general statements below hold for every
    [MiniAudio]. *)
Module Ref.

Record sound := Sound {
  file : option string;
  playing : bool;
  cursor : N;
  looping : bool;
  volume : float;
  pan : float;
  pitch : float;
  position : float * float * float
}.

Record engine := EngineState {
  started : bool;
  master_volume : float;
  listener_position : float * float * float;
  listener_direction : float * float * float
}.

(** The freshly constructed object: no asset, stopped at frame 0, neutral
    volume, pan and pitch. *)
Definition fresh_sound : sound :=
  Sound None false 0 false f_1_0 f_0_0 f_1_0 (f_0_0, f_0_0, f_0_0).

(** [readable] tells which paths decode; [transition] is what the engine
    answers to a start or stop request ([MA_SUCCESS], or an error code, in
    which case the sound is left as it was). *)
Definition miniaudio (readable : string -> bool) (transition : ma_result) : MiniAudio := {|
  ma_engine := engine;
  ma_engine_config := unit;
  ma_sound := sound;
  engine_config_init := tt;
  engine_init := fun _ e =>
    (MA_SUCCESS, EngineState true (master_volume e) (listener_position e) (listener_direction e));
  engine_uninit := fun e =>
    EngineState false (master_volume e) (listener_position e) (listener_direction e);
  engine_set_volume := fun e v =>
    EngineState (started e) v (listener_position e) (listener_direction e);
  engine_listener_set_position := fun e _ x y z =>
    EngineState (started e) (master_volume e) (x, y, z) (listener_direction e);
  engine_listener_set_direction := fun e _ x y z =>
    EngineState (started e) (master_volume e) (listener_position e) (x, y, z);
  sound_value_init := fresh_sound;
  sound_init_from_file := fun _ path _ s =>
    if readable path
    then (MA_SUCCESS, Sound (Some path) false 0 false f_1_0 f_0_0 f_1_0 (f_0_0, f_0_0, f_0_0))
    else (-7, s);
  sound_uninit := fun s =>
    Sound None false 0 (looping s) (volume s) (pan s) (pitch s) (position s);
  sound_is_playing := playing;
  sound_start := fun s =>
    if transition =? MA_SUCCESS
    then (MA_SUCCESS, Sound (file s) true (cursor s) (looping s) (volume s) (pan s) (pitch s) (position s))
    else (transition, s);
  sound_stop := fun s =>
    if transition =? MA_SUCCESS
    then (MA_SUCCESS, Sound (file s) false (cursor s) (looping s) (volume s) (pan s) (pitch s) (position s))
    else (transition, s);
  sound_seek_to_pcm_frame := fun s frame =>
    (MA_SUCCESS, Sound (file s) (playing s) frame (looping s) (volume s) (pan s) (pitch s) (position s));
  sound_set_looping := fun s b =>
    Sound (file s) (playing s) (cursor s) b (volume s) (pan s) (pitch s) (position s);
  sound_set_volume := fun s v =>
    Sound (file s) (playing s) (cursor s) (looping s) v (pan s) (pitch s) (position s);
  sound_set_pan := fun s v =>
    Sound (file s) (playing s) (cursor s) (looping s) (volume s) v (pitch s) (position s);
  sound_set_pitch := fun s v =>
    Sound (file s) (playing s) (cursor s) (looping s) (volume s) (pan s) v (position s);
  sound_set_position := fun s x y z =>
    Sound (file s) (playing s) (cursor s) (looping s) (volume s) (pan s) (pitch s) (x, y, z);
  sound_get_cursor_in_pcm_frames := cursor
|}.

(** A build without [_WIN32] whose allocator always finds a free address. *)
Definition platform : Platform := {|
  WIN32 := false;
  new_nothrow := fun live => fresh ({[NULL]} ∪ live);
  new_nothrow_fresh := fun live =>
    or_intror (fun Hin : fresh ({[NULL]} ∪ live) ∈ live =>
                 is_fresh ({[NULL]} ∪ live) (elem_of_union_r _ _ _ Hin))
|}.

(** The same build when memory is exhausted. *)
Definition platform_out_of_memory : Platform := {|
  WIN32 := false;
  new_nothrow := fun _ => NULL;
  new_nothrow_fresh := fun _ => or_introl eq_refl
|}.

(** Every path decodes and every transition is accepted. *)
Definition accepting : MiniAudio := miniaudio (fun _ => true) MA_SUCCESS.
(** Every transition is refused with [MA_ERROR] (-1). *)
Definition refusing : MiniAudio := miniaudio (fun _ => true) (-1).
(** No path decodes. *)
Definition unreadable : MiniAudio := miniaudio (fun _ => false) MA_SUCCESS.

Definition engine0 : engine :=
  EngineState true f_1_0 (f_0_0, f_0_0, f_0_0) (f_0_0, f_0_0, f_0_0).

(** A loaded sound of ["a.wav"], playing or not, at a given frame. *)
Definition sound_at (is_playing : bool) (frame : N) : sound :=
  Sound (Some "a.wav"%string) is_playing frame false f_1_0 f_0_0 f_1_0 (f_0_0, f_0_0, f_0_0).

(** A registry with the single entry ["explosion"], whose object is at
    address 1, and an empty registry. *)
Definition one_sound (readable : string -> bool) (transition : ma_result) (s : sound)
    : world (MA := miniaudio readable transition) :=
  World (MA := miniaudio readable transition) engine0
    {[ "explosion"%string := 1%N ]} {[ 1%N := s ]} [].
Definition no_sound (readable : string -> bool) (transition : ma_result)
    : world (MA := miniaudio readable transition) :=
  World (MA := miniaudio readable transition) engine0 ∅ ∅ [].

(** A registry with two entries, ["explosion"] at address 1 and ["music"]
    at address 2. *)
Definition two_sounds (readable : string -> bool) (transition : ma_result) (s1 s2 : sound)
    : world (MA := miniaudio readable transition) :=
  World (MA := miniaudio readable transition) engine0
    {[ "explosion"%string := 1%N; "music"%string := 2%N ]} {[ 1%N := s1; 2%N := s2 ]} [].

(** The engine [accepting], except that it refuses every start request with
    [MA_ERROR] (-1) and leaves the sound as it was; it still accepts every
    stop request. *)
Definition start_refusing : MiniAudio := {|
  ma_engine := engine;
  ma_engine_config := unit;
  ma_sound := sound;
  engine_config_init := tt;
  engine_init := @engine_init accepting;
  engine_uninit := @engine_uninit accepting;
  engine_set_volume := @engine_set_volume accepting;
  engine_listener_set_position := @engine_listener_set_position accepting;
  engine_listener_set_direction := @engine_listener_set_direction accepting;
  sound_value_init := fresh_sound;
  sound_init_from_file := @sound_init_from_file accepting;
  sound_uninit := @sound_uninit accepting;
  sound_is_playing := playing;
  sound_start := fun s => (-1, s);
  sound_stop := @sound_stop accepting;
  sound_seek_to_pcm_frame := @sound_seek_to_pcm_frame accepting;
  sound_set_looping := @sound_set_looping accepting;
  sound_set_volume := @sound_set_volume accepting;
  sound_set_pan := @sound_set_pan accepting;
  sound_set_pitch := @sound_set_pitch accepting;
  sound_set_position := @sound_set_position accepting;
  sound_get_cursor_in_pcm_frames := cursor
|}.

(** The registry with the single entry ["explosion"] on that engine. *)
Definition one_sound_start_refusing (s : sound) : world (MA := start_refusing) :=
  World (MA := start_refusing) engine0 {[ "explosion"%string := 1%N ]} {[ 1%N := s ]} [].

End Ref.

(** ** The vocabulary of the statements *)

(** The calls into miniaudio of a trace, in order. *)
Definition engine_calls (t : list event) : list call :=
  omap (fun e => match e with Engine c => Some c | _ => None end) t.

(** A diagnostic text is an error or a warning by the tag it starts with. *)
Definition text_tagged (tag : string) (text : message) : bool :=
  match text with
  | Str s :: _ => String.prefix tag s
  | _ => false
  end.
Definition is_error_text : message -> bool := text_tagged "SoundSystem ERROR:".
Definition is_warning_text : message -> bool := text_tagged "SoundSystem WARNING:".

Section Vocabulary.
Context {MA : MiniAudio} {PF : Platform}.

(** The sound object registered under an identifier, and what the engine
    says about it. *)
Definition sound_of (w : world) (soundId : string) : option ma_sound :=
  match g_loadedSounds w !! soundId with
  | Some p => heap w !! p
  | None => None
  end.
Definition position_of (w : world) (soundId : string) : option N :=
  sound_get_cursor_in_pcm_frames <$> sound_of w soundId.
Definition playing_of (w : world) (soundId : string) : option bool :=
  sound_is_playing <$> sound_of w soundId.

(** The two ways a run changes a world besides the registry: events are
    appended to the trace, the object at an address is replaced. *)
Definition log (l : list event) (w : world) : world :=
  set_trace (trace w ++ l) w.
Definition update (p : ptr) (s : ma_sound) (w : world) : world :=
  set_heap (<[p := s]> (heap w)) w.

(** The world after [delete p]. *)
Definition release (p : ptr) (w : world) : world :=
  set_heap (delete p (heap w)) w.

(** The events of [report_error] and [report_warning]. *)
Definition error_events (text : message) : list event :=
  (if WIN32 then [MessageBoxA text "Sound System Error" (Z.lor MB_ICONERROR MB_OK)] else [])
  ++ [Cerr text].
Definition warning_events (text : message) : list event :=
  (if WIN32 then [MessageBoxA text "Sound System Warning" (Z.lor MB_ICONWARNING MB_OK)] else [])
  ++ [Cerr text].

(** A run that changes nothing and prints one warning. *)
Definition warned_no_op (m : M unit) (w : world) : Prop :=
  exists text, is_warning_text text = true /\
    m w = Some (tt, log (warning_events text) w).

(** A run that changes nothing, prints one error and returns [a]. *)
Definition rejected_with {A} (a : A) (m : M A) (w : world) : Prop :=
  exists text, is_error_text text = true /\
    m w = Some (a, log (error_events text) w).

(** What [SndPlaySound] does to an object that is playing: stop, rewind,
    set the looping flag, start. *)
Definition restarted (loop : bool) (s0 : ma_sound) : ma_result * ma_sound :=
  sound_start (sound_set_looping (sound_seek_to_pcm_frame (sound_stop s0).2 0).2 loop).

(** The result of decoding [filePath] into a fresh object. *)
Definition decoded (w : world) (filePath : string) : ma_result * ma_sound :=
  sound_init_from_file (g_engine w) filePath MA_SOUND_FLAG_DECODE sound_value_init.

(** The value [SetSoundPitch] hands to the engine. *)
Definition floored_pitch (pitch : float) : float :=
  if float_le pitch f_0_0 then f_0_001 else pitch.

(** The registry owns its objects: every handle is a live address other
    than [NULL], and no two identifiers hold the same handle.  [LoadSound]
    is the only function that adds an entry, and it adds a freshly allocated
    object. *)
Definition registry_owns (w : world) : Prop :=
  (forall sid p, g_loadedSounds w !! sid = Some p ->
     p <> NULL /\ is_Some (heap w !! p)) /\
  (forall sid1 sid2 p,
     g_loadedSounds w !! sid1 = Some p -> g_loadedSounds w !! sid2 = Some p ->
     sid1 = sid2).

(** The entries in the order the loop visits them. *)
Definition entries (w : world) : list (string * ptr) :=
  merge_sort key_le (map_to_list (g_loadedSounds w)).

(** What the loop does with one entry after the other. *)
Definition release_events (l : list (string * ptr)) : list event :=
  flat_map (fun e => [Engine (Call_ma_sound_uninit e.2); Delete e.2]) l.
Definition release_all (ps : list ptr) (h : gmap ptr ma_sound) : gmap ptr ma_sound :=
  foldl (fun h p => delete p h) h ps.

(** Modelled from the spec: what the external engine does to a sound's
    playback position and playing state (miniaudio.h is not part of the
    sources).  Section 6 lists [start], [stop], [seekToFrame] and
    [isPlaying]; the state machine of section 4.2 has [stop] leave a sound
    stopped at its frame, [start] play on from the frame it is at, and
    [seekToFrame] put it at the frame asked for.  A transition may be
    refused: nothing is assumed about the result codes. *)
Record engine_contract : Prop := {
  stop_keeps_cursor : forall s,
    sound_get_cursor_in_pcm_frames (sound_stop s).2 = sound_get_cursor_in_pcm_frames s;
  start_keeps_cursor : forall s,
    sound_get_cursor_in_pcm_frames (sound_start s).2 = sound_get_cursor_in_pcm_frames s;
  seek_sets_cursor : forall s frame,
    sound_get_cursor_in_pcm_frames (sound_seek_to_pcm_frame s frame).2 = frame;
  set_looping_keeps_cursor : forall s loop,
    sound_get_cursor_in_pcm_frames (sound_set_looping s loop) = sound_get_cursor_in_pcm_frames s;
  stop_stops : forall s,
    (sound_stop s).1 = MA_SUCCESS -> sound_is_playing (sound_stop s).2 = false;
  start_starts : forall s,
    (sound_start s).1 = MA_SUCCESS -> sound_is_playing (sound_start s).2 = true;
  seek_keeps_playing : forall s frame,
    sound_is_playing (sound_seek_to_pcm_frame s frame).2 = sound_is_playing s
}.

(** The heap holds nothing but the objects of the registry: with
    [registry_owns], the live objects are exactly the registered handles
    (no handle dangles, no object leaks). *)
Definition no_leak (w : world) : Prop :=
  forall p, is_Some (heap w !! p) -> exists sid, g_loadedSounds w !! sid = Some p.
Definition consistent (w : world) : Prop := registry_owns w /\ no_leak w.

(** A run that returns and is local to one identifier: the registry and the
    engine are as before, no object is created or deleted, the object of
    every other identifier is as before, and the trace only grows. *)
Definition local_to {A} (soundId : option string) (m : M A) (w : world) : Prop :=
  exists a w',
    m w = Some (a, w') /\
    g_loadedSounds w' = g_loadedSounds w /\
    g_engine w' = g_engine w /\
    dom (heap w') = dom (heap w) /\
    (forall q,
       match soundId with
       | Some sid => g_loadedSounds w !! sid <> Some q
       | None => True
       end -> heap w' !! q = heap w !! q) /\
    exists l, trace w' = trace w ++ l.

(** A run that returns and leaves the registry and the heap alone. *)
Definition engine_only {A} (m : M A) (w : world) : Prop :=
  exists a w',
    m w = Some (a, w') /\
    g_loadedSounds w' = g_loadedSounds w /\
    heap w' = heap w /\
    exists l, trace w' = trace w ++ l.

(** One call of a host program into the library, and a program as the
    sequence of its calls (results are dropped: no function looks at the
    result of another). *)
Inductive request :=
| Do_InitializeSoundSystem
| Do_ShutdownSoundSystem
| Do_LoadSound (filePath soundId : option string)
| Do_UnloadSound (soundId : option string)
| Do_SndPlaySound (soundId : option string) (loop : bool)
| Do_StopSound (soundId : option string)
| Do_PauseSound (soundId : option string)
| Do_ResumeSound (soundId : option string)
| Do_SetMasterVolume (volume : float)
| Do_SetSoundVolume (soundId : option string) (volume : float)
| Do_SetSoundPan (soundId : option string) (pan : float)
| Do_SetSoundPitch (soundId : option string) (pitch : float)
| Do_SetSoundPosition (soundId : option string) (x y z : float)
| Do_SetListenerPosition (x y z : float)
| Do_SetListenerOrientation (forwardX forwardY forwardZ : float)
| Do_IsSoundPlaying (soundId : option string).

Definition perform (r : request) : M unit :=
  match r with
  | Do_InitializeSoundSystem => InitializeSoundSystem ;; ret tt
  | Do_ShutdownSoundSystem => ShutdownSoundSystem
  | Do_LoadSound filePath soundId => LoadSound filePath soundId ;; ret tt
  | Do_UnloadSound soundId => UnloadSound soundId
  | Do_SndPlaySound soundId loop => SndPlaySound soundId loop
  | Do_StopSound soundId => StopSound soundId
  | Do_PauseSound soundId => PauseSound soundId
  | Do_ResumeSound soundId => ResumeSound soundId
  | Do_SetMasterVolume volume => SetMasterVolume volume
  | Do_SetSoundVolume soundId volume => SetSoundVolume soundId volume
  | Do_SetSoundPan soundId pan => SetSoundPan soundId pan
  | Do_SetSoundPitch soundId pitch => SetSoundPitch soundId pitch
  | Do_SetSoundPosition soundId x y z => SetSoundPosition soundId x y z
  | Do_SetListenerPosition x y z => SetListenerPosition x y z
  | Do_SetListenerOrientation x y z => SetListenerOrientation x y z
  | Do_IsSoundPlaying soundId => IsSoundPlaying soundId ;; ret tt
  end.

Definition perform_all (program : list request) : M unit :=
  for_each program perform.

(** The state of a process that has called nothing yet. *)
Definition initial_world (e : ma_engine) : world := World e ∅ ∅ [].

End Vocabulary.

(** ** Running the primitives *)

Section Run.
Context {MA : MiniAudio} {PF : Platform}.

Lemma log_nil w : log [] w = w.
Proof. destruct w. unfold log, set_trace. simpl. by rewrite app_nil_r. Qed.

Lemma log_log l1 l2 w : log l2 (log l1 w) = log (l1 ++ l2) w.
Proof. unfold log, set_trace. simpl. by rewrite app_assoc. Qed.

Lemma update_log p s l w : update p s (log l w) = log l (update p s w).
Proof. reflexivity. Qed.

Lemma update_update p s1 s2 w : update p s2 (update p s1 w) = update p s2 w.
Proof. unfold update, set_heap. simpl. by rewrite insert_insert_eq. Qed.

Lemma heap_log l w : heap (log l w) = heap w.
Proof. reflexivity. Qed.
Lemma heap_update p s w : heap (update p s w) = <[p := s]> (heap w).
Proof. reflexivity. Qed.
Lemma registry_log l w : g_loadedSounds (log l w) = g_loadedSounds w.
Proof. reflexivity. Qed.
Lemma registry_update p s w : g_loadedSounds (update p s w) = g_loadedSounds w.
Proof. reflexivity. Qed.
Lemma trace_log l w : trace (log l w) = trace w ++ l.
Proof. reflexivity. Qed.
Lemma trace_update p s w : trace (update p s w) = trace w.
Proof. reflexivity. Qed.
Lemma engine_log l w : g_engine (log l w) = g_engine w.
Proof. reflexivity. Qed.
Lemma engine_update p s w : g_engine (update p s w) = g_engine w.
Proof. reflexivity. Qed.

Lemma set_loadedSounds_log m l w :
  set_loadedSounds m (log l w) = log l (set_loadedSounds m w).
Proof. reflexivity. Qed.

Lemma bind_run {A B} (m : M A) (k : A -> M B) w a w' :
  m w = Some (a, w') -> bind m k w = k a w'.
Proof. intros H. unfold bind. by rewrite H. Qed.

Lemma ret_run {A} (a : A) w : ret a w = Some (a, w).
Proof. reflexivity. Qed.

Lemma emit_run e w : emit e w = Some (tt, log [e] w).
Proof. reflexivity. Qed.

Lemma cout_run text w : cout text w = Some (tt, log [Cout text] w).
Proof. reflexivity. Qed.

Lemma report_error_run text w :
  report_error text w = Some (tt, log (error_events text) w).
Proof.
  unfold report_error, error_events, ifdef_WIN32.
  destruct WIN32; [|reflexivity].
  erewrite bind_run by apply emit_run. rewrite emit_run, log_log. reflexivity.
Qed.

Lemma report_warning_run text w :
  report_warning text w = Some (tt, log (warning_events text) w).
Proof.
  unfold report_warning, warning_events, ifdef_WIN32.
  destruct WIN32; [|reflexivity].
  erewrite bind_run by apply emit_run. rewrite emit_run, log_log. reflexivity.
Qed.

Lemma find_run key w : find key w = Some (g_loadedSounds w !! key, w).
Proof. reflexivity. Qed.

Lemma on_sound_run {A} p (f : ma_sound -> A * ma_sound) c w s :
  heap w !! p = Some s ->
  on_sound p f c w = Some ((f s).1, log [Engine (c (f s).1)] (update p (f s).2 w)).
Proof. intros H. unfold on_sound. by rewrite H. Qed.

Lemma assign_run key p w :
  assign key p w = Some (tt, set_loadedSounds (<[key := p]> (g_loadedSounds w)) w).
Proof. reflexivity. Qed.

Lemma erase_run key w :
  erase key w = Some (tt, set_loadedSounds (delete key (g_loadedSounds w)) w).
Proof. reflexivity. Qed.

Lemma count_run key w :
  count key w = Some (match g_loadedSounds w !! key with Some _ => 1 | None => 0 end, w).
Proof. reflexivity. Qed.

Lemma bind_assoc {A B C} (m : M A) (k1 : A -> M B) (k2 : B -> M C) w :
  bind (bind m k1) k2 w = bind m (fun a => bind (k1 a) k2) w.
Proof. unfold bind. destruct (m w) as [[a w']|]; reflexivity. Qed.

Lemma update_id p s w : heap w !! p = Some s -> update p s w = w.
Proof.
  intros H. destruct w as [e r h t]. unfold update, set_heap. simpl in *.
  by rewrite insert_id.
Qed.

Lemma on_sound_dangling {A} p (f : ma_sound -> A * ma_sound) c w :
  heap w !! p = None -> on_sound p f c w = None.
Proof. intros H. unfold on_sound. by rewrite H. Qed.

End Run.

Create Rewrite HintDb world.
#[local] Hint Rewrite @log_log @update_log @update_update @set_loadedSounds_log
  @heap_log @heap_update
  @registry_log @registry_update @trace_log @trace_update @engine_log @engine_update
  : world.

(** Proof steps: [live] shows that the address a call dereferences is live,
    [run_step] runs the primitive at the head of a computation, [run] runs
    as far as the next branch. *)
Ltac live := autorewrite with world; first [eassumption | apply lookup_insert_eq].
Ltac run_prim :=
  lazymatch goal with
  | |- find _ _ = _ => apply find_run
  | |- count _ _ = _ => apply count_run
  | |- assign _ _ _ = _ => apply assign_run
  | |- erase _ _ = _ => apply erase_run
  | |- ret _ _ = _ => apply ret_run
  | |- cout _ _ = _ => apply cout_run
  | |- emit _ _ = _ => apply emit_run
  | |- report_error _ _ = _ => apply report_error_run
  | |- report_warning _ _ = _ => apply report_warning_run
  | |- on_sound _ _ _ _ = _ => eapply on_sound_run; live
  end.
Ltac run_step :=
  first
    [ rewrite bind_assoc
    | erewrite bind_run by run_prim
    | rewrite ret_run | rewrite cout_run | rewrite report_error_run
    | rewrite report_warning_run
    | erewrite on_sound_run by live ].
Ltac run := repeat run_step; autorewrite with world; cbn [fst snd app].
Ltac unfold_calls :=
  unfold ma_sound_init_from_file, ma_sound_uninit, ma_sound_is_playing,
    ma_sound_start, ma_sound_stop, ma_sound_seek_to_pcm_frame,
    ma_sound_set_looping, ma_sound_set_volume, ma_sound_set_pan,
    ma_sound_set_pitch, ma_sound_set_position.

Section Outcomes.
Context {MA : MiniAudio} {PF : Platform}.

Lemma engine_calls_app t1 t2 :
  engine_calls (t1 ++ t2) = engine_calls t1 ++ engine_calls t2.
Proof. apply omap_app. Qed.

Lemma engine_calls_nil : engine_calls [] = [].
Proof. reflexivity. Qed.
Lemma engine_calls_Engine c t : engine_calls (Engine c :: t) = c :: engine_calls t.
Proof. reflexivity. Qed.
Lemma engine_calls_Cout text t : engine_calls (Cout text :: t) = engine_calls t.
Proof. reflexivity. Qed.
Lemma engine_calls_Cerr text t : engine_calls (Cerr text :: t) = engine_calls t.
Proof. reflexivity. Qed.
Lemma engine_calls_New p t : engine_calls (New p :: t) = engine_calls t.
Proof. reflexivity. Qed.
Lemma engine_calls_Delete p t : engine_calls (Delete p :: t) = engine_calls t.
Proof. reflexivity. Qed.

Lemma engine_calls_error_events text : engine_calls (error_events text) = [].
Proof. unfold error_events. by destruct WIN32. Qed.

Lemma engine_calls_warning_events text : engine_calls (warning_events text) = [].
Proof. unfold warning_events. by destruct WIN32. Qed.

Lemma warned_no_op_registry m w w' :
  warned_no_op m w -> m w = Some (tt, w') ->
  g_loadedSounds w' = g_loadedSounds w /\ heap w' = heap w /\
  g_engine w' = g_engine w /\ engine_calls (trace w') = engine_calls (trace w).
Proof.
  intros (text & _ & Hrun) Hw. rewrite Hrun in Hw. injection Hw as <-.
  repeat split. rewrite trace_log, engine_calls_app, engine_calls_warning_events.
  apply app_nil_r.
Qed.

End Outcomes.

Create Rewrite HintDb calls.
#[local] Hint Rewrite @trace_log @trace_update @engine_calls_app @engine_calls_nil
  @engine_calls_Engine @engine_calls_Cout @engine_calls_Cerr @engine_calls_New
  @engine_calls_Delete @engine_calls_error_events @engine_calls_warning_events
  : calls.

(** [calls] computes the engine calls of a trace that is given explicitly. *)
Ltac calls :=
  repeat match goal with |- context [if ?b then _ else _] => destruct b end;
  autorewrite with calls; rewrite <- ?app_assoc; cbn [app]; try reflexivity.

(** ** An identifier that is not in the registry *)

Section UnknownId.
Context {MA : MiniAudio} {PF : Platform}.
Variables (w : world) (sid : string).
Hypothesis Habsent : g_loadedSounds w !! sid = None.

Ltac unknown := eexists; split; [|run_step; rewrite Habsent; run; reflexivity]; reflexivity.

Lemma UnloadSound_unknown : warned_no_op (UnloadSound (Some sid)) w.
Proof. unfold UnloadSound. unknown. Qed.
Lemma SndPlaySound_unknown loop : warned_no_op (SndPlaySound (Some sid) loop) w.
Proof. unfold SndPlaySound. unknown. Qed.
Lemma StopSound_unknown : warned_no_op (StopSound (Some sid)) w.
Proof. unfold StopSound. unknown. Qed.
Lemma PauseSound_unknown : warned_no_op (PauseSound (Some sid)) w.
Proof. unfold PauseSound. unknown. Qed.
Lemma ResumeSound_unknown : warned_no_op (ResumeSound (Some sid)) w.
Proof. unfold ResumeSound. unknown. Qed.
Lemma SetSoundVolume_unknown v : warned_no_op (SetSoundVolume (Some sid) v) w.
Proof. unfold SetSoundVolume. unknown. Qed.
Lemma SetSoundPan_unknown v : warned_no_op (SetSoundPan (Some sid) v) w.
Proof. unfold SetSoundPan. unknown. Qed.
Lemma SetSoundPitch_unknown v : warned_no_op (SetSoundPitch (Some sid) v) w.
Proof. unfold SetSoundPitch. unknown. Qed.
Lemma SetSoundPosition_unknown x y z : warned_no_op (SetSoundPosition (Some sid) x y z) w.
Proof. unfold SetSoundPosition. unknown. Qed.
Lemma IsSoundPlaying_unknown : IsSoundPlaying (Some sid) w = Some (false, w).
Proof. unfold IsSoundPlaying. run_step. by rewrite Habsent. Qed.

End UnknownId.

(** ** A null identifier *)

Section NullId.
Context {MA : MiniAudio} {PF : Platform}.
Variable w : world.

Ltac null := eexists; split; [|run; reflexivity]; reflexivity.

Lemma LoadSound_null_id filePath : rejected_with false (LoadSound filePath None) w.
Proof. unfold LoadSound. destruct filePath; null. Qed.
Lemma LoadSound_null_path soundId : rejected_with false (LoadSound None soundId) w.
Proof. unfold LoadSound. null. Qed.
Lemma UnloadSound_null : rejected_with tt (UnloadSound None) w.
Proof. unfold UnloadSound. null. Qed.
Lemma SndPlaySound_null loop : rejected_with tt (SndPlaySound None loop) w.
Proof. unfold SndPlaySound. null. Qed.
Lemma StopSound_null : rejected_with tt (StopSound None) w.
Proof. unfold StopSound. null. Qed.
Lemma PauseSound_null : rejected_with tt (PauseSound None) w.
Proof. unfold PauseSound. null. Qed.
Lemma ResumeSound_null : rejected_with tt (ResumeSound None) w.
Proof. unfold ResumeSound. null. Qed.
Lemma SetSoundVolume_null v : rejected_with tt (SetSoundVolume None v) w.
Proof. unfold SetSoundVolume. null. Qed.
Lemma SetSoundPan_null v : rejected_with tt (SetSoundPan None v) w.
Proof. unfold SetSoundPan. null. Qed.
Lemma SetSoundPitch_null v : rejected_with tt (SetSoundPitch None v) w.
Proof. unfold SetSoundPitch. null. Qed.
Lemma SetSoundPosition_null x y z : rejected_with tt (SetSoundPosition None x y z) w.
Proof. unfold SetSoundPosition. null. Qed.
Lemma IsSoundPlaying_null : IsSoundPlaying None w = Some (false, w).
Proof. reflexivity. Qed.

End NullId.


(** ** An identifier that is in the registry *)

Section KnownId.
Context {MA : MiniAudio} {PF : Platform}.
Variables (w : world) (sid : string) (p : ptr) (s : ma_sound).
Hypothesis Hentry : g_loadedSounds w !! sid = Some p.
Hypothesis Hlive : heap w !! p = Some s.

Lemma sound_of_known : sound_of w sid = Some s.
Proof. unfold sound_of. by rewrite Hentry. Qed.

Lemma sound_of_update s' l : sound_of (log l (update p s' w)) sid = Some s'.
Proof.
  unfold sound_of. autorewrite with world. rewrite Hentry. apply lookup_insert_eq.
Qed.

Lemma sound_of_log l : sound_of (log l w) sid = Some s.
Proof. unfold sound_of. autorewrite with world. by rewrite Hentry. Qed.

Lemma PauseSound_known :
  PauseSound (Some sid) w =
    Some (tt, log (Engine (Call_ma_sound_stop p (sound_stop s).1) ::
                   (if negb ((sound_stop s).1 =? MA_SUCCESS) then
                      error_events [Str "SoundSystem ERROR: Failed to pause sound with ID '";
                                    Str sid; Str "'. Result: "; Res (sound_stop s).1]
                    else [Cout [Str "SoundSystem: Paused sound ID '"; Str sid; Str "'."]]))
              (update p (sound_stop s).2 w)).
Proof.
  unfold PauseSound. unfold_calls. run_step. rewrite Hentry. run_step.
  destruct (negb _); run; reflexivity.
Qed.

Lemma ResumeSound_known :
  ResumeSound (Some sid) w =
    Some (tt, log (Engine (Call_ma_sound_start p (sound_start s).1) ::
                   (if negb ((sound_start s).1 =? MA_SUCCESS) then
                      error_events [Str "SoundSystem ERROR: Failed to resume sound with ID '";
                                    Str sid; Str "'. Result: "; Res (sound_start s).1]
                    else [Cout [Str "SoundSystem: Resumed sound ID '"; Str sid; Str "'."]]))
              (update p (sound_start s).2 w)).
Proof.
  unfold ResumeSound. unfold_calls. run_step. rewrite Hentry. run_step.
  destruct (negb _); run; reflexivity.
Qed.

Lemma StopSound_not_playing :
  sound_is_playing s = false ->
  StopSound (Some sid) w =
    Some (tt, log [Engine (Call_ma_sound_is_playing p false);
                   Cout [Str "SoundSystem: Sound ID '"; Str sid;
                         Str "' is not playing. No action needed."]] w).
Proof.
  intros Hp. unfold StopSound. unfold_calls. run_step. rewrite Hentry. run_step.
  cbn [fst snd]. rewrite Hp. run. by rewrite (update_id _ _ _ Hlive).
Qed.

Lemma StopSound_playing_accepted :
  sound_is_playing s = true -> (sound_stop s).1 = MA_SUCCESS ->
  StopSound (Some sid) w =
    Some (tt, log [Engine (Call_ma_sound_is_playing p true);
                   Engine (Call_ma_sound_stop p MA_SUCCESS);
                   Engine (Call_ma_sound_seek_to_pcm_frame p 0
                             (sound_seek_to_pcm_frame (sound_stop s).2 0).1);
                   Cout [Str "SoundSystem: Stopped sound ID '"; Str sid; Str "'."]]
              (update p (sound_seek_to_pcm_frame (sound_stop s).2 0).2 w)).
Proof.
  intros Hp Hok. unfold StopSound. unfold_calls. run_step. rewrite Hentry. run_step.
  cbn [fst snd]. rewrite Hp. run_step. rewrite Hok. cbn [fst snd negb Z.eqb MA_SUCCESS].
  run. reflexivity.
Qed.

Lemma StopSound_playing_refused :
  sound_is_playing s = true -> (sound_stop s).1 <> MA_SUCCESS ->
  StopSound (Some sid) w =
    Some (tt, log ([Engine (Call_ma_sound_is_playing p true);
                    Engine (Call_ma_sound_stop p (sound_stop s).1)] ++
                   error_events [Str "SoundSystem ERROR: Failed to stop sound with ID '";
                                 Str sid; Str "'. Result: "; Res (sound_stop s).1])
              (update p (sound_stop s).2 w)).
Proof.
  intros Hp Hko. unfold StopSound. unfold_calls. run_step. rewrite Hentry. run_step.
  cbn [fst snd]. rewrite Hp. run_step.
  apply Z.eqb_neq in Hko. rewrite Hko. cbn [negb]. run. reflexivity.
Qed.

Lemma SndPlaySound_playing loop :
  sound_is_playing s = true ->
  SndPlaySound (Some sid) loop w =
    Some (tt, log ([Engine (Call_ma_sound_is_playing p true);
                    Engine (Call_ma_sound_stop p (sound_stop s).1);
                    Engine (Call_ma_sound_seek_to_pcm_frame p 0
                              (sound_seek_to_pcm_frame (sound_stop s).2 0).1);
                    Engine (Call_ma_sound_set_looping p loop);
                    Engine (Call_ma_sound_start p (restarted loop s).1)] ++
                   (if negb ((restarted loop s).1 =? MA_SUCCESS) then
                      error_events [Str "SoundSystem ERROR: Failed to play sound with ID '";
                                    Str sid; Str "'. Result: "; Res (restarted loop s).1]
                    else [Cout [Str "SoundSystem: Playing sound ID '"; Str sid;
                                Str "' (Looping: "; Str (if loop then "Yes" else "No");
                                Str ")."]]))
              (update p (restarted loop s).2 w)).
Proof.
  intros Hp. unfold SndPlaySound, restarted. unfold_calls.
  run_step. rewrite Hentry. run_step. cbn [fst snd]. rewrite Hp.
  run. destruct (negb _); run; reflexivity.
Qed.

Lemma SndPlaySound_not_playing loop :
  sound_is_playing s = false ->
  SndPlaySound (Some sid) loop w =
    Some (tt, log ([Engine (Call_ma_sound_is_playing p false);
                    Engine (Call_ma_sound_set_looping p loop);
                    Engine (Call_ma_sound_start p (sound_start (sound_set_looping s loop)).1)] ++
                   (if negb ((sound_start (sound_set_looping s loop)).1 =? MA_SUCCESS) then
                      error_events [Str "SoundSystem ERROR: Failed to play sound with ID '";
                                    Str sid; Str "'. Result: ";
                                    Res (sound_start (sound_set_looping s loop)).1]
                    else [Cout [Str "SoundSystem: Playing sound ID '"; Str sid;
                                Str "' (Looping: "; Str (if loop then "Yes" else "No");
                                Str ")."]]))
              (update p (sound_start (sound_set_looping s loop)).2 w)).
Proof.
  intros Hp. unfold SndPlaySound. unfold_calls.
  run_step. rewrite Hentry. run_step. cbn [fst snd]. rewrite Hp.
  run. destruct (negb _); run; reflexivity.
Qed.

Lemma IsSoundPlaying_known :
  IsSoundPlaying (Some sid) w =
    Some (sound_is_playing s, log [Engine (Call_ma_sound_is_playing p (sound_is_playing s))] w).
Proof.
  unfold IsSoundPlaying. unfold_calls. run_step. rewrite Hentry. run.
  by rewrite (update_id _ _ _ Hlive).
Qed.

End KnownId.

(** The reference engine keeps the contract, whatever it reads and whatever
    it answers to a transition. *)
Lemma Ref_contract readable transition :
  engine_contract (MA := Ref.miniaudio readable transition).
Proof.
  split; intros s; cbn; try reflexivity.
  - destruct (transition =? MA_SUCCESS); reflexivity.
  - destruct (transition =? MA_SUCCESS); reflexivity.
  - destruct (transition =? MA_SUCCESS) eqn:E; cbn; [reflexivity|].
    intros ->. discriminate.
  - destruct (transition =? MA_SUCCESS) eqn:E; cbn; [reflexivity|].
    intros ->. discriminate.
Qed.

(** So does the engine that refuses every start. *)
Lemma Ref_start_refusing_contract : engine_contract (MA := Ref.start_refusing).
Proof.
  split; intros s; cbn; try reflexivity.
  intros Hko. discriminate Hko.
Qed.

(** ** Pause and Resume *)

(** C1, as the code has it.  For a sound entry present in the registry,
    [PauseSound] calls the engine's stop and nothing else (no seek), and
    [ResumeSound] afterwards calls the engine's start and nothing else,
    whatever the engine answers.  When the engine accepts the stop the sound
    is stopped, when it accepts the start the sound is playing; when it
    refuses, the function reports the error and the sound is left as the
    engine left it.  On an engine whose stop and start leave the cursor
    where it is ([engine_contract]), the position after Pause is the
    position before it, and after Pause immediately followed by Resume it is
    greater than or equal to (here: the same as) the position at the moment
    of Pause. *)
Theorem C1_pause_then_resume_keeps_position
    {MA : MiniAudio} {PF : Platform} (w : world) (sid : string) (p : ptr) (s : ma_sound) :
  engine_contract ->
  g_loadedSounds w !! sid = Some p ->
  heap w !! p = Some s ->
  exists w1 w2 c0 c2,
    PauseSound (Some sid) w = Some (tt, w1) /\
    ResumeSound (Some sid) w1 = Some (tt, w2) /\
    engine_calls (trace w1) =
      engine_calls (trace w) ++ [Call_ma_sound_stop p (sound_stop s).1] /\
    engine_calls (trace w2) =
      engine_calls (trace w1) ++ [Call_ma_sound_start p (sound_start (sound_stop s).2).1] /\
    position_of w sid = Some c0 /\
    position_of w1 sid = Some c0 /\
    position_of w2 sid = Some c2 /\
    (c0 <= c2)%N /\
    ((sound_stop s).1 = MA_SUCCESS -> playing_of w1 sid = Some false) /\
    ((sound_start (sound_stop s).2).1 = MA_SUCCESS -> playing_of w2 sid = Some true) /\
    sound_of w1 sid = Some (sound_stop s).2 /\
    sound_of w2 sid = Some (sound_start (sound_stop s).2).2 /\
    ((sound_stop s).1 <> MA_SUCCESS ->
     trace w1 =
       trace w ++ Engine (Call_ma_sound_stop p (sound_stop s).1) ::
         error_events [Str "SoundSystem ERROR: Failed to pause sound with ID '";
                       Str sid; Str "'. Result: "; Res (sound_stop s).1]) /\
    ((sound_start (sound_stop s).2).1 <> MA_SUCCESS ->
     trace w2 =
       trace w1 ++ Engine (Call_ma_sound_start p (sound_start (sound_stop s).2).1) ::
         error_events [Str "SoundSystem ERROR: Failed to resume sound with ID '";
                       Str sid; Str "'. Result: "; Res (sound_start (sound_stop s).2).1]).
Proof.
  intros C Hentry Hlive.
  rewrite (PauseSound_known w sid p s Hentry Hlive).
  eexists _, _, (sound_get_cursor_in_pcm_frames s), (sound_get_cursor_in_pcm_frames s).
  split; [reflexivity|].
  rewrite (ResumeSound_known _ sid p (sound_stop s).2)
    by first [exact Hentry | apply lookup_insert_eq].
  split; [reflexivity|].
  unfold position_of, playing_of.
  rewrite (sound_of_known w sid p s Hentry Hlive), (sound_of_update w sid p Hentry).
  rewrite (sound_of_update (log _ (update p (sound_stop s).2 w)) sid p Hentry).
  cbn [fmap option_fmap option_map].
  split; [calls|]. split; [calls|].
  split; [reflexivity|].
  split; [by rewrite (stop_keeps_cursor C)|].
  split; [by rewrite (start_keeps_cursor C), (stop_keeps_cursor C)|].
  split; [reflexivity|].
  split; [intros Hok; by rewrite (stop_stops C)|].
  split; [intros Hok; by rewrite (start_starts C)|].
  split; [reflexivity|]. split; [reflexivity|].
  autorewrite with world. split.
  - intros Hko. apply Z.eqb_neq in Hko. by rewrite Hko.
  - intros Hko. apply Z.eqb_neq in Hko. rewrite Hko. cbn [negb].
    by rewrite <- app_assoc.
Qed.

(** C1 on the reference engine: a sound playing at frame 5. *)
Lemma C1_witness :
  exists w1 w2,
    PauseSound (MA := Ref.accepting) (PF := Ref.platform) (Some "explosion"%string)
      (Ref.one_sound (fun _ => true) MA_SUCCESS (Ref.sound_at true 5)) = Some (tt, w1) /\
    ResumeSound (MA := Ref.accepting) (PF := Ref.platform) (Some "explosion"%string) w1
      = Some (tt, w2) /\
    position_of w1 "explosion" = Some 5%N /\
    exists c2, position_of w2 "explosion" = Some c2 /\ (5 <= c2)%N.
Proof.
  destruct (C1_pause_then_resume_keeps_position (MA := Ref.accepting) (PF := Ref.platform)
              (Ref.one_sound (fun _ => true) MA_SUCCESS (Ref.sound_at true 5))
              "explosion"%string 1%N (Ref.sound_at true 5)
              (Ref_contract _ _) eq_refl eq_refl)
    as (w1 & w2 & c0 & c2 & Hp & Hr & _ & _ & H0 & H1 & H2 & Hle & _).
  vm_compute in H0. injection H0 as <-.
  exists w1, w2. repeat split; [exact Hp | exact Hr | exact H1 |].
  exists c2. split; [exact H2 | exact Hle].
Defined.

(** C1 as claimed fails when the engine refuses the request.  On an engine
    that keeps the contract and refuses every transition, [PauseSound] on a
    sound playing at frame 5 reports an error and the sound is still
    playing: playback has not stopped.  On the same engine [ResumeSound] on
    a sound stopped at frame 5 reports an error and the sound is still
    stopped: playback has not restarted. *)
Lemma C1_counterexample :
  engine_contract (MA := Ref.refusing) /\
  (playing_of (Ref.one_sound (fun _ => true) (-1) (Ref.sound_at true 5)) "explosion"
     = Some true /\
   exists w1,
     PauseSound (MA := Ref.refusing) (PF := Ref.platform) (Some "explosion"%string)
       (Ref.one_sound (fun _ => true) (-1) (Ref.sound_at true 5)) = Some (tt, w1) /\
     playing_of w1 "explosion" = Some true /\
     trace w1 =
       [Engine (Call_ma_sound_stop 1 (-1));
        Cerr [Str "SoundSystem ERROR: Failed to pause sound with ID '"; Str "explosion";
              Str "'. Result: "; Res (-1)]]) /\
  (playing_of (Ref.one_sound (fun _ => true) (-1) (Ref.sound_at false 5)) "explosion"
     = Some false /\
   exists w2,
     ResumeSound (MA := Ref.refusing) (PF := Ref.platform) (Some "explosion"%string)
       (Ref.one_sound (fun _ => true) (-1) (Ref.sound_at false 5)) = Some (tt, w2) /\
     playing_of w2 "explosion" = Some false /\
     trace w2 =
       [Engine (Call_ma_sound_start 1 (-1));
        Cerr [Str "SoundSystem ERROR: Failed to resume sound with ID '"; Str "explosion";
              Str "'. Result: "; Res (-1)]]).
Proof.
  split; [apply Ref_contract|]. split.
  - split; [reflexivity|].
    eexists. split; [vm_compute; reflexivity|]. split; reflexivity.
  - split; [reflexivity|].
    eexists. split; [vm_compute; reflexivity|]. split; reflexivity.
Qed.

(** ** Stop *)

(** C2, as the code has it.  For a sound entry present in the registry:
    [StopSound] on a playing sound calls the engine's stop and, when the
    engine reports success, rewinds the sound to frame 0, which leaves it
    stopped at frame 0; when the engine refuses the stop, [StopSound] reports
    the error and does not rewind, so the position stays where the engine
    left it.  [StopSound] on a sound that is not playing only asks the engine
    whether it is playing and prints a line on [std::cout]: no error, and the
    entry, the object and the registry are unchanged. *)
Theorem C2_stop_rewinds_when_engine_accepts
    {MA : MiniAudio} {PF : Platform} (w : world) (sid : string) (p : ptr) (s : ma_sound) :
  engine_contract ->
  g_loadedSounds w !! sid = Some p ->
  heap w !! p = Some s ->
  (sound_is_playing s = true -> (sound_stop s).1 = MA_SUCCESS ->
   exists w' r_seek,
     StopSound (Some sid) w = Some (tt, w') /\
     engine_calls (trace w') =
       engine_calls (trace w) ++
         [Call_ma_sound_is_playing p true; Call_ma_sound_stop p MA_SUCCESS;
          Call_ma_sound_seek_to_pcm_frame p 0 r_seek] /\
     position_of w' sid = Some 0%N /\
     playing_of w' sid = Some false /\
     g_loadedSounds w' = g_loadedSounds w) /\
  (sound_is_playing s = true -> (sound_stop s).1 <> MA_SUCCESS ->
   exists w',
     StopSound (Some sid) w = Some (tt, w') /\
     trace w' =
       trace w ++
         [Engine (Call_ma_sound_is_playing p true);
          Engine (Call_ma_sound_stop p (sound_stop s).1)] ++
         error_events [Str "SoundSystem ERROR: Failed to stop sound with ID '";
                       Str sid; Str "'. Result: "; Res (sound_stop s).1] /\
     sound_of w' sid = Some (sound_stop s).2 /\
     position_of w' sid = position_of w sid /\
     g_loadedSounds w' = g_loadedSounds w) /\
  (sound_is_playing s = false ->
   StopSound (Some sid) w =
     Some (tt, log [Engine (Call_ma_sound_is_playing p false);
                    Cout [Str "SoundSystem: Sound ID '"; Str sid;
                          Str "' is not playing. No action needed."]] w)).
Proof.
  intros C Hentry Hlive. split; [|split].
  - intros Hp Hok.
    rewrite (StopSound_playing_accepted w sid p s Hentry Hlive Hp Hok).
    eexists _, _. split; [reflexivity|].
    unfold position_of, playing_of. rewrite (sound_of_update w sid p Hentry).
    cbn [fmap option_fmap option_map].
    rewrite (seek_sets_cursor C), (seek_keeps_playing C), (stop_stops C _ Hok).
    repeat split. calls.
  - intros Hp Hko.
    rewrite (StopSound_playing_refused w sid p s Hentry Hlive Hp Hko).
    eexists. split; [reflexivity|].
    unfold position_of. rewrite (sound_of_update w sid p Hentry).
    rewrite (sound_of_known w sid p s Hentry Hlive).
    cbn [fmap option_fmap option_map]. rewrite (stop_keeps_cursor C).
    repeat split.
  - apply StopSound_not_playing; assumption.
Qed.

(** C2 on the reference engine: a sound playing at frame 5 is stopped at
    frame 0. *)
Lemma C2_witness :
  exists w',
    StopSound (MA := Ref.accepting) (PF := Ref.platform) (Some "explosion"%string)
      (Ref.one_sound (fun _ => true) MA_SUCCESS (Ref.sound_at true 5)) = Some (tt, w') /\
    position_of w' "explosion" = Some 0%N /\
    playing_of w' "explosion" = Some false.
Proof.
  destruct (C2_stop_rewinds_when_engine_accepts (MA := Ref.accepting) (PF := Ref.platform)
              (Ref.one_sound (fun _ => true) MA_SUCCESS (Ref.sound_at true 5))
              "explosion"%string 1%N (Ref.sound_at true 5)
              (Ref_contract _ _) eq_refl eq_refl) as [Hplaying _].
  destruct (Hplaying eq_refl eq_refl) as (w' & r & Hrun & _ & Hpos & Hstopped & _).
  exists w'. repeat split; assumption.
Defined.

(** C2 as claimed fails when the engine refuses the stop: a sound playing at
    frame 5 is still at frame 5, and still playing, after [StopSound]. *)
Lemma C2_counterexample :
  playing_of (Ref.one_sound (fun _ => true) (-1) (Ref.sound_at true 5)) "explosion"
    = Some true /\
  exists w',
    StopSound (MA := Ref.refusing) (PF := Ref.platform) (Some "explosion"%string)
      (Ref.one_sound (fun _ => true) (-1) (Ref.sound_at true 5)) = Some (tt, w') /\
    position_of w' "explosion" = Some 5%N /\
    position_of w' "explosion" <> Some 0%N /\
    trace w' =
      [Engine (Call_ma_sound_is_playing 1 true); Engine (Call_ma_sound_stop 1 (-1));
       Cerr [Str "SoundSystem ERROR: Failed to stop sound with ID '"; Str "explosion";
             Str "'. Result: "; Res (-1)]].
Proof.
  split; [reflexivity|].
  eexists. split; [vm_compute; reflexivity|].
  split; [reflexivity|]. split; [discriminate|reflexivity].
Qed.

(** ** Play *)

(** C3, as the code has it.  For a sound entry present in the registry that
    is playing, [SndPlaySound] calls, in this order, the engine's stop, seek
    to frame 0, set-looping and start on the entry's one object, without
    looking at the results of the stop and of the seek.  Before the looping
    flag is set the sound is at frame 0, and it is stopped there when the
    engine accepted the stop.  Afterwards the sound is at frame 0; it is
    playing when the engine accepts the start, and when the engine refuses
    the start [SndPlaySound] reports the error and the sound is left as the
    engine left it.  The registry still holds the same single handle for
    the identifier and no sound object was created, so nothing is
    layered. *)
Theorem C3_play_while_playing_restarts
    {MA : MiniAudio} {PF : Platform} (w : world) (sid : string) (p : ptr) (s : ma_sound)
    (loop : bool) :
  engine_contract ->
  g_loadedSounds w !! sid = Some p ->
  heap w !! p = Some s ->
  sound_is_playing s = true ->
  exists w',
    SndPlaySound (Some sid) loop w = Some (tt, w') /\
    engine_calls (trace w') =
      engine_calls (trace w) ++
        [Call_ma_sound_is_playing p true;
         Call_ma_sound_stop p (sound_stop s).1;
         Call_ma_sound_seek_to_pcm_frame p 0 (sound_seek_to_pcm_frame (sound_stop s).2 0).1;
         Call_ma_sound_set_looping p loop;
         Call_ma_sound_start p (restarted loop s).1] /\
    sound_get_cursor_in_pcm_frames (sound_seek_to_pcm_frame (sound_stop s).2 0).2 = 0%N /\
    ((sound_stop s).1 = MA_SUCCESS ->
     sound_is_playing (sound_seek_to_pcm_frame (sound_stop s).2 0).2 = false) /\
    sound_of w' sid = Some (restarted loop s).2 /\
    position_of w' sid = Some 0%N /\
    ((restarted loop s).1 = MA_SUCCESS ->
     playing_of w' sid = Some true /\
     trace w' =
       trace w ++
         [Engine (Call_ma_sound_is_playing p true);
          Engine (Call_ma_sound_stop p (sound_stop s).1);
          Engine (Call_ma_sound_seek_to_pcm_frame p 0
                    (sound_seek_to_pcm_frame (sound_stop s).2 0).1);
          Engine (Call_ma_sound_set_looping p loop);
          Engine (Call_ma_sound_start p MA_SUCCESS);
          Cout [Str "SoundSystem: Playing sound ID '"; Str sid;
                Str "' (Looping: "; Str (if loop then "Yes" else "No"); Str ")."]]) /\
    ((restarted loop s).1 <> MA_SUCCESS ->
     trace w' =
       trace w ++
         [Engine (Call_ma_sound_is_playing p true);
          Engine (Call_ma_sound_stop p (sound_stop s).1);
          Engine (Call_ma_sound_seek_to_pcm_frame p 0
                    (sound_seek_to_pcm_frame (sound_stop s).2 0).1);
          Engine (Call_ma_sound_set_looping p loop);
          Engine (Call_ma_sound_start p (restarted loop s).1)] ++
         error_events [Str "SoundSystem ERROR: Failed to play sound with ID '";
                       Str sid; Str "'. Result: "; Res (restarted loop s).1]) /\
    g_loadedSounds w' = g_loadedSounds w /\
    dom (heap w') = dom (heap w).
Proof.
  intros C Hentry Hlive Hp.
  rewrite (SndPlaySound_playing w sid p s Hentry Hlive loop Hp).
  eexists. split; [reflexivity|].
  unfold position_of, playing_of. rewrite (sound_of_update w sid p Hentry).
  cbn [fmap option_fmap option_map].
  split; [calls|].
  split; [apply (seek_sets_cursor C)|].
  split; [intros Hok; by rewrite (seek_keeps_playing C), (stop_stops C)|].
  split; [reflexivity|].
  split.
  { unfold restarted.
    by rewrite (start_keeps_cursor C), (set_looping_keeps_cursor C), (seek_sets_cursor C). }
  autorewrite with world.
  split; [|split; [|split]].
  - intros Hok. split.
    + unfold restarted in *. by rewrite (start_starts C).
    + by rewrite Hok.
  - intros Hko. apply Z.eqb_neq in Hko. by rewrite Hko.
  - reflexivity.
  - apply dom_insert_lookup_L. by rewrite Hlive.
Qed.

(** C3 on the reference engine: a sound playing at frame 5 is restarted at
    frame 0, with the one object the heap had. *)
Lemma C3_witness :
  exists w',
    SndPlaySound (MA := Ref.accepting) (PF := Ref.platform) (Some "explosion"%string) true
      (Ref.one_sound (fun _ => true) MA_SUCCESS (Ref.sound_at true 5)) = Some (tt, w') /\
    position_of w' "explosion" = Some 0%N /\
    playing_of w' "explosion" = Some true /\
    dom (heap w') = {[ 1%N ]}.
Proof.
  destruct (C3_play_while_playing_restarts (MA := Ref.accepting) (PF := Ref.platform)
              (Ref.one_sound (fun _ => true) MA_SUCCESS (Ref.sound_at true 5))
              "explosion"%string 1%N (Ref.sound_at true 5) true
              (Ref_contract _ _) eq_refl eq_refl eq_refl)
    as (w' & Hrun & _ & _ & _ & _ & Hpos & Hplay & _ & _ & Hdom).
  exists w'. split; [exact Hrun|]. split; [exact Hpos|]. split.
  - apply Hplay. reflexivity.
  - rewrite Hdom. vm_compute. reflexivity.
Defined.

(** C3 as claimed fails when the engine refuses the start.  On an engine
    that keeps the contract, accepts every stop and refuses every start,
    [SndPlaySound] on a sound playing at frame 5 stops and rewinds it and
    then reports that it failed to play it: the sound that was playing is
    left stopped at frame 0, so playback has not started again. *)
Lemma C3_counterexample :
  engine_contract (MA := Ref.start_refusing) /\
  playing_of (Ref.one_sound_start_refusing (Ref.sound_at true 5)) "explosion" = Some true /\
  exists w',
    SndPlaySound (MA := Ref.start_refusing) (PF := Ref.platform) (Some "explosion"%string)
      false (Ref.one_sound_start_refusing (Ref.sound_at true 5)) = Some (tt, w') /\
    playing_of w' "explosion" = Some false /\
    position_of w' "explosion" = Some 0%N /\
    trace w' =
      [Engine (Call_ma_sound_is_playing 1 true);
       Engine (Call_ma_sound_stop 1 MA_SUCCESS);
       Engine (Call_ma_sound_seek_to_pcm_frame 1 0 MA_SUCCESS);
       Engine (Call_ma_sound_set_looping 1 false);
       Engine (Call_ma_sound_start 1 (-1));
       Cerr [Str "SoundSystem ERROR: Failed to play sound with ID '"; Str "explosion";
             Str "'. Result: "; Res (-1)]].
Proof.
  split; [apply Ref_start_refusing_contract|]. split; [reflexivity|].
  eexists. split; [vm_compute; reflexivity|]. repeat split.
Qed.

(** ** Load *)

Section Load.
Context {MA : MiniAudio} {PF : Platform}.

Lemma release_log p l w : release p (log l w) = log l (release p w).
Proof. reflexivity. Qed.

Lemma release_update_fresh p s w :
  heap w !! p = None -> release p (update p s w) = w.
Proof.
  intros H. destruct w as [e r h t]. unfold release, update, set_heap. simpl in *.
  by rewrite delete_insert_id.
Qed.

Lemma new_ma_sound_run w :
  new_nothrow (dom (heap w)) <> NULL ->
  new_ma_sound w =
    Some (new_nothrow (dom (heap w)),
          log [New (new_nothrow (dom (heap w)))]
            (update (new_nothrow (dom (heap w))) sound_value_init w)).
Proof.
  intros H. unfold new_ma_sound. apply N.eqb_neq in H. by rewrite H.
Qed.

Lemma new_ma_sound_exhausted w :
  new_nothrow (dom (heap w)) = NULL ->
  new_ma_sound w = Some (NULL, log [New NULL] w).
Proof. intros H. unfold new_ma_sound. by rewrite H. Qed.

Lemma new_nothrow_not_live w :
  new_nothrow (dom (heap w)) <> NULL -> heap w !! new_nothrow (dom (heap w)) = None.
Proof.
  intros H. destruct (new_nothrow_fresh (dom (heap w))) as [|Hfresh]; [done|].
  by apply not_elem_of_dom.
Qed.

Lemma delete_ma_sound_run p s w :
  p <> NULL -> heap w !! p = Some s ->
  delete_ma_sound p w = Some (tt, log [Delete p] (release p w)).
Proof.
  intros Hp Hs. unfold delete_ma_sound. apply N.eqb_neq in Hp. by rewrite Hp, Hs.
Qed.

Lemma ma_sound_init_from_file_run filePath flags p s w :
  heap w !! p = Some s ->
  ma_sound_init_from_file filePath flags p w =
    Some ((sound_init_from_file (g_engine w) filePath flags s).1,
          log [Engine (Call_ma_sound_init_from_file filePath flags p
                         (sound_init_from_file (g_engine w) filePath flags s).1)]
            (update p (sound_init_from_file (g_engine w) filePath flags s).2 w)).
Proof. intros H. unfold ma_sound_init_from_file. by apply on_sound_run. Qed.

Lemma LoadSound_known w filePath sid p :
  g_loadedSounds w !! sid = Some p ->
  LoadSound (Some filePath) (Some sid) w =
    Some (true, log (warning_events [Str "SoundSystem WARNING: Sound ID '"; Str sid;
                                     Str "' already loaded. Ignoring."]) w).
Proof.
  intros Hentry. unfold LoadSound. run_step. rewrite Hentry. cbn [negb Z.eqb].
  run. reflexivity.
Qed.

Lemma LoadSound_out_of_memory w filePath sid :
  g_loadedSounds w !! sid = None ->
  new_nothrow (dom (heap w)) = NULL ->
  LoadSound (Some filePath) (Some sid) w =
    Some (false,
          log (New NULL ::
               error_events [Str "SoundSystem ERROR: Failed to allocate memory for new sound."])
            w).
Proof.
  intros Habsent Hnull. unfold LoadSound. run_step. rewrite Habsent. cbn [negb Z.eqb].
  erewrite bind_run by (by apply new_ma_sound_exhausted).
  cbn [N.eqb NULL]. run. reflexivity.
Qed.

Lemma LoadSound_decode_failure w filePath sid :
  g_loadedSounds w !! sid = None ->
  new_nothrow (dom (heap w)) <> NULL ->
  (decoded w filePath).1 <> MA_SUCCESS ->
  LoadSound (Some filePath) (Some sid) w =
    Some (false,
          log ([New (new_nothrow (dom (heap w)));
                Engine (Call_ma_sound_init_from_file filePath MA_SOUND_FLAG_DECODE
                          (new_nothrow (dom (heap w))) (decoded w filePath).1)] ++
               error_events [Str "SoundSystem ERROR: Failed to load sound '"; Str filePath;
                             Str "'. Result: "; Res (decoded w filePath).1] ++
               [Delete (new_nothrow (dom (heap w)))])
            w).
Proof.
  intros Habsent Hp Hko. unfold LoadSound. run_step. rewrite Habsent. cbn [negb Z.eqb].
  erewrite bind_run by (by apply new_ma_sound_run).
  pose proof (new_nothrow_not_live w Hp) as Hfresh.
  set (p := new_nothrow (dom (heap w))) in *.
  destruct (N.eqb_spec p NULL) as [|_]; [done|].
  erewrite bind_run by (apply ma_sound_init_from_file_run; live).
  autorewrite with world. fold (decoded w filePath).
  apply Z.eqb_neq in Hko. rewrite Hko. cbn [negb].
  run_step.
  erewrite bind_run by (eapply delete_ma_sound_run; [done | live]).
  run. rewrite release_log, release_update_fresh by done.
  by rewrite log_log.
Qed.

Lemma LoadSound_success w filePath sid :
  g_loadedSounds w !! sid = None ->
  new_nothrow (dom (heap w)) <> NULL ->
  (decoded w filePath).1 = MA_SUCCESS ->
  LoadSound (Some filePath) (Some sid) w =
    Some (true,
          log [New (new_nothrow (dom (heap w)));
               Engine (Call_ma_sound_init_from_file filePath MA_SOUND_FLAG_DECODE
                         (new_nothrow (dom (heap w))) MA_SUCCESS);
               Cout [Str "SoundSystem: Loaded sound '"; Str filePath; Str "' as ID '";
                     Str sid; Str "'."]]
            (set_loadedSounds (<[sid := new_nothrow (dom (heap w))]> (g_loadedSounds w))
               (update (new_nothrow (dom (heap w))) (decoded w filePath).2 w))).
Proof.
  intros Habsent Hp Hok. unfold LoadSound. run_step. rewrite Habsent. cbn [negb Z.eqb].
  erewrite bind_run by (by apply new_ma_sound_run).
  set (p := new_nothrow (dom (heap w))) in *.
  destruct (N.eqb_spec p NULL) as [|_]; [done|].
  erewrite bind_run by (apply ma_sound_init_from_file_run; live).
  autorewrite with world. fold (decoded w filePath).
  rewrite Hok. cbn [negb Z.eqb MA_SUCCESS].
  run. reflexivity.
Qed.

(** Whatever [LoadSound] does, an identifier it reports as loaded is in the
    registry afterwards. *)
Lemma LoadSound_true_registered w filePath soundId sid w' :
  soundId = Some sid ->
  LoadSound filePath soundId w = Some (true, w') ->
  is_Some (g_loadedSounds w' !! sid).
Proof.
  intros -> Hrun. destruct filePath as [filePath|].
  2:{ destruct (LoadSound_null_path w (Some sid)) as (text & _ & H).
      rewrite H in Hrun. discriminate. }
  destruct (g_loadedSounds w !! sid) as [p|] eqn:Hentry.
  { rewrite (LoadSound_known w filePath sid p Hentry) in Hrun.
    injection Hrun as <-. rewrite registry_log, Hentry. by eexists. }
  destruct (decide (new_nothrow (dom (heap w)) = NULL)) as [Hnull|Hp].
  { rewrite (LoadSound_out_of_memory w filePath sid Hentry Hnull) in Hrun. discriminate. }
  destruct (decide ((decoded w filePath).1 = MA_SUCCESS)) as [Hok|Hko].
  - rewrite (LoadSound_success w filePath sid Hentry Hp Hok) in Hrun.
    injection Hrun as <-. rewrite registry_log. cbn. rewrite lookup_insert_eq. by eexists.
  - rewrite (LoadSound_decode_failure w filePath sid Hentry Hp Hko) in Hrun. discriminate.
Qed.

End Load.

(** C4. For every registry state and every identifier already present,
    [LoadSound] with that identifier and any path returns [true] and changes
    nothing but the diagnostic output (one warning): no entry is added and
    the entry keeps the handle, hence the object and the path, of the first
    load.  So loading an identifier a second time, after a load that
    reported success, succeeds again and leaves the registry, the heap and
    the engine as the first load left them. *)
Theorem C4_load_existing_id_is_idempotent
    {MA : MiniAudio} {PF : Platform} (w : world) (filePath sid : string) :
  (forall p, g_loadedSounds w !! sid = Some p ->
     LoadSound (Some filePath) (Some sid) w =
       Some (true, log (warning_events [Str "SoundSystem WARNING: Sound ID '"; Str sid;
                                        Str "' already loaded. Ignoring."]) w)) /\
  (forall firstPath w1,
     LoadSound firstPath (Some sid) w = Some (true, w1) ->
     exists w2,
       LoadSound (Some filePath) (Some sid) w1 = Some (true, w2) /\
       g_loadedSounds w2 = g_loadedSounds w1 /\
       heap w2 = heap w1 /\
       g_engine w2 = g_engine w1 /\
       engine_calls (trace w2) = engine_calls (trace w1)).
Proof.
  split.
  - intros p Hentry. by apply (LoadSound_known w filePath sid p).
  - intros firstPath w1 Hfirst.
    destruct (LoadSound_true_registered w firstPath (Some sid) sid w1 eq_refl Hfirst)
      as [p Hentry].
    rewrite (LoadSound_known w1 filePath sid p Hentry).
    eexists. split; [reflexivity|]. repeat split.
    autorewrite with calls. apply app_nil_r.
Qed.

(** C4 on the reference engine: ["explosion"] is loaded again, from another
    path. *)
Lemma C4_witness :
  LoadSound (MA := Ref.accepting) (PF := Ref.platform)
    (Some "other.wav"%string) (Some "explosion"%string)
    (Ref.one_sound (fun _ => true) MA_SUCCESS (Ref.sound_at true 5)) =
  Some (true,
        log [Cerr [Str "SoundSystem WARNING: Sound ID '"; Str "explosion";
                   Str "' already loaded. Ignoring."]]
          (Ref.one_sound (fun _ => true) MA_SUCCESS (Ref.sound_at true 5))).
Proof.
  exact (proj1 (C4_load_existing_id_is_idempotent (MA := Ref.accepting) (PF := Ref.platform)
                  (Ref.one_sound (fun _ => true) MA_SUCCESS (Ref.sound_at true 5))
                  "other.wav"%string "explosion"%string) 1%N eq_refl).
Defined.

(** C5. For every registry state and every identifier not in the registry,
    if the object was allocated and the engine's decode-and-prepare step
    ([ma_sound_init_from_file]) fails, then [LoadSound] deletes the object it
    had allocated, returns [false] after reporting the error, and leaves the
    registry, the heap and the engine exactly as they were. *)
Theorem C5_failed_decode_leaves_registry
    {MA : MiniAudio} {PF : Platform} (w : world) (filePath sid : string) :
  g_loadedSounds w !! sid = None ->
  new_nothrow (dom (heap w)) <> NULL ->
  (decoded w filePath).1 <> MA_SUCCESS ->
  exists w',
    LoadSound (Some filePath) (Some sid) w = Some (false, w') /\
    g_loadedSounds w' = g_loadedSounds w /\
    heap w' = heap w /\
    g_engine w' = g_engine w /\
    trace w' =
      trace w ++
        [New (new_nothrow (dom (heap w)));
         Engine (Call_ma_sound_init_from_file filePath MA_SOUND_FLAG_DECODE
                   (new_nothrow (dom (heap w))) (decoded w filePath).1)] ++
        error_events [Str "SoundSystem ERROR: Failed to load sound '"; Str filePath;
                      Str "'. Result: "; Res (decoded w filePath).1] ++
        [Delete (new_nothrow (dom (heap w)))].
Proof.
  intros Habsent Hp Hko.
  rewrite (LoadSound_decode_failure w filePath sid Habsent Hp Hko).
  eexists. split; [reflexivity|]. repeat split.
Qed.

(** C5 on an engine that decodes nothing: the registry and the heap keep
    their one sound. *)
Lemma C5_witness :
  exists w',
    LoadSound (MA := Ref.unreadable) (PF := Ref.platform)
      (Some "missing.wav"%string) (Some "laser"%string)
      (Ref.one_sound (fun _ => false) MA_SUCCESS (Ref.sound_at true 5)) = Some (false, w') /\
    g_loadedSounds w' = {[ "explosion"%string := 1%N ]} /\
    heap w' = {[ 1%N := Ref.sound_at true 5 ]}.
Proof.
  destruct (C5_failed_decode_leaves_registry (MA := Ref.unreadable) (PF := Ref.platform)
              (Ref.one_sound (fun _ => false) MA_SUCCESS (Ref.sound_at true 5))
              "missing.wav"%string "laser"%string)
    as (w' & Hrun & Hreg & Hheap & _).
  - reflexivity.
  - vm_compute. discriminate.
  - vm_compute. discriminate.
  - exists w'. repeat split; assumption.
Defined.

(** ** Comparing floats *)

Lemma SFcompare_antisym a b :
  SFcompare b a = option_map CompOpp (SFcompare a b).
Proof.
  destruct a as [sa|sa| |sa ma ea], b as [sb|sb| |sb mb eb]; cbn;
    try reflexivity; try (by destruct sa); try (by destruct sb);
    try (by destruct sa, sb).
  change (PosDef.Pos.compare_cont Eq mb ma) with (Pos.compare mb ma).
  change (PosDef.Pos.compare_cont Eq ma mb) with (Pos.compare ma mb).
  rewrite (Z.compare_antisym ea eb), (Pos.compare_antisym ma mb).
  destruct sa, sb; cbn; try reflexivity;
    destruct (ea ?= eb)%Z; cbn; try reflexivity;
    destruct (ma ?= mb)%positive; reflexivity.
Qed.

Lemma SFcompare_defined a b :
  is_nan a = false -> is_nan b = false -> is_Some (SFcompare a b).
Proof. destruct a, b; cbn; intros; by eauto. Qed.

Lemma SFcompare_refl a : is_nan a = false -> SFcompare a a = Some Eq.
Proof.
  destruct a as [s|s| |s m e]; cbn; intros; try done; try (by destruct s).
  rewrite Z.compare_refl.
  change (PosDef.Pos.compare_cont Eq m m) with (Pos.compare m m).
  rewrite Pos.compare_refl. by destruct s.
Qed.

(** Among numbers, [b <= a] holds as soon as [a < b] does not. *)
Lemma float_not_lt_le a b :
  is_nan a = false -> is_nan b = false -> float_lt a b = false -> float_le b a = true.
Proof.
  intros Ha Hb. unfold float_lt, float_le, SFltb, SFleb.
  rewrite (SFcompare_antisym a b).
  destruct (SFcompare_defined a b Ha Hb) as [c ->]. by destruct c.
Qed.

Lemma float_le_refl a : is_nan a = false -> float_le a a = true.
Proof. intros Ha. unfold float_le, SFleb. by rewrite SFcompare_refl. Qed.

(** [std::clamp] returns one of its three arguments, and a number between
    the bounds when the value is a number. *)
Lemma std_clamp_cases v lo hi :
  (float_lt v lo = true /\ std_clamp v lo hi = lo) \/
  (float_lt v lo = false /\ float_lt hi v = true /\ std_clamp v lo hi = hi) \/
  (float_lt v lo = false /\ float_lt hi v = false /\ std_clamp v lo hi = v).
Proof.
  unfold std_clamp. destruct (float_lt v lo); [by left|].
  destruct (float_lt hi v); [right; by left | right; by right].
Qed.

Lemma std_clamp_between v lo hi :
  is_nan v = false -> is_nan lo = false -> is_nan hi = false ->
  float_le lo hi = true ->
  float_le lo (std_clamp v lo hi) = true /\ float_le (std_clamp v lo hi) hi = true.
Proof.
  intros Hv Hlo Hhi Hle.
  destruct (std_clamp_cases v lo hi) as [[_ ->]|[(_ & _ & ->)|(H1 & H2 & ->)]].
  - split; [by apply float_le_refl | exact Hle].
  - split; [exact Hle | by apply float_le_refl].
  - split; by apply float_not_lt_le.
Qed.

(** No float is below 0 (or below -1) and above 1 at once: the first makes
    it negative, the second positive. *)
Lemma not_below_0_and_above_1 v :
  float_lt v f_0_0 = true -> float_lt f_1_0 v = true -> False.
Proof.
  destruct v as [[]|[]| |[] m e];
    cbv [float_lt SFltb SFcompare f_0_0 f_1_0]; intros; discriminate.
Qed.

Lemma not_below_neg_1_and_above_1 v :
  float_lt v f_neg_1_0 = true -> float_lt f_1_0 v = true -> False.
Proof.
  destruct v as [[]|[]| |[] m e];
    cbv [float_lt SFltb SFcompare f_neg_1_0 f_1_0]; intros; discriminate.
Qed.

(** A NaN goes through [std::clamp] unchanged. *)
Lemma std_clamp_nan lo hi : std_clamp S754_nan lo hi = S754_nan.
Proof. by destruct hi. Qed.

Example literals_are_binary32 :
  forallb float_valid
    [f_0_0; f_1_0; f_neg_1_0; f_0_001; f_1_5; f_neg_0_2; f_neg_2_0; S754_nan] = true.
Proof. reflexivity. Qed.

(** [0.001f] and [-0.2f] are the binary32 values nearest to 1/1000 and -1/5:
    the distance, in units of the last place, is at most one half. *)
Example f_0_001_nearest : (2 * Z.abs (8589935 * 1000 - 2 ^ 33) <= 1000)%Z.
Proof. vm_compute. discriminate. Qed.
Example f_neg_0_2_nearest : (2 * Z.abs (13421773 * 5 - 2 ^ 26) <= 5)%Z.
Proof. vm_compute. discriminate. Qed.

(** ** The per-sound setters *)

Section Setters.
Context {MA : MiniAudio} {PF : Platform}.
Variables (w : world) (sid : string) (p : ptr) (s : ma_sound).
Hypothesis Hentry : g_loadedSounds w !! sid = Some p.
Hypothesis Hlive : heap w !! p = Some s.

Lemma SetSoundVolume_known volume :
  SetSoundVolume (Some sid) volume w =
    Some (tt, log [Engine (Call_ma_sound_set_volume p (std_clamp volume f_0_0 f_1_0));
                   Cout [Str "SoundSystem: Volume for sound ID '"; Str sid; Str "' set to ";
                         Flt (std_clamp volume f_0_0 f_1_0); Str "."]]
              (update p (sound_set_volume s (std_clamp volume f_0_0 f_1_0)) w)).
Proof.
  unfold SetSoundVolume. unfold_calls. run_step. rewrite Hentry. run. reflexivity.
Qed.

Lemma SetSoundPan_known pan :
  SetSoundPan (Some sid) pan w =
    Some (tt, log [Engine (Call_ma_sound_set_pan p (std_clamp pan f_neg_1_0 f_1_0));
                   Cout [Str "SoundSystem: Pan for sound ID '"; Str sid; Str "' set to ";
                         Flt (std_clamp pan f_neg_1_0 f_1_0); Str "."]]
              (update p (sound_set_pan s (std_clamp pan f_neg_1_0 f_1_0)) w)).
Proof.
  unfold SetSoundPan. unfold_calls. run_step. rewrite Hentry. run. reflexivity.
Qed.

Lemma SetSoundPitch_known pitch :
  SetSoundPitch (Some sid) pitch w =
    Some (tt, log [Engine (Call_ma_sound_set_pitch p (floored_pitch pitch));
                   Cout [Str "SoundSystem: Pitch for sound ID '"; Str sid; Str "' set to ";
                         Flt (floored_pitch pitch); Str "."]]
              (update p (sound_set_pitch s (floored_pitch pitch)) w)).
Proof.
  unfold SetSoundPitch. unfold_calls. run_step. rewrite Hentry. run. reflexivity.
Qed.

Lemma SetSoundPosition_known x y z :
  SetSoundPosition (Some sid) x y z w =
    Some (tt, log [Engine (Call_ma_sound_set_position p x y z);
                   Cout [Str "SoundSystem: Position for sound ID '"; Str sid;
                         Str "' set to ("; Flt x; Str ", "; Flt y; Str ", "; Flt z;
                         Str ")."]]
              (update p (sound_set_position s x y z) w)).
Proof.
  unfold SetSoundPosition. unfold_calls. run_step. rewrite Hentry. run. reflexivity.
Qed.

Lemma floored_pitch_above_zero pitch : float_le (floored_pitch pitch) f_0_0 = false.
Proof. unfold floored_pitch. by destruct (float_le pitch f_0_0) eqn:E. Qed.

End Setters.

(** C9, as the code has it.  For a sound entry present in the registry and
    every input that is a number (not NaN): [SetSoundVolume] hands the engine
    the volume clamped to [0,1] (1.5 becomes 1.0, -0.2 becomes 0.0) and
    [SetSoundPan] the pan clamped to [-1,1] (-2.0 becomes -1.0).  For every
    input, [SetSoundPitch] hands the engine 0.001 in place of a pitch less
    than or equal to 0 and the pitch itself otherwise, so that it never
    hands it a value of 0 or below. *)
Theorem C9_setters_clamp_numbers
    {MA : MiniAudio} {PF : Platform} (w : world) (sid : string) (p : ptr) (s : ma_sound) :
  g_loadedSounds w !! sid = Some p ->
  heap w !! p = Some s ->
  (forall volume, is_nan volume = false ->
     exists passed,
       SetSoundVolume (Some sid) volume w =
         Some (tt, log [Engine (Call_ma_sound_set_volume p passed);
                        Cout [Str "SoundSystem: Volume for sound ID '"; Str sid;
                              Str "' set to "; Flt passed; Str "."]]
                   (update p (sound_set_volume s passed) w)) /\
       float_le f_0_0 passed = true /\ float_le passed f_1_0 = true /\
       (float_lt volume f_0_0 = true -> passed = f_0_0) /\
       (float_lt f_1_0 volume = true -> passed = f_1_0) /\
       (float_lt volume f_0_0 = false -> float_lt f_1_0 volume = false -> passed = volume) /\
       (volume = f_1_5 -> passed = f_1_0) /\
       (volume = f_neg_0_2 -> passed = f_0_0)) /\
  (forall pan, is_nan pan = false ->
     exists passed,
       SetSoundPan (Some sid) pan w =
         Some (tt, log [Engine (Call_ma_sound_set_pan p passed);
                        Cout [Str "SoundSystem: Pan for sound ID '"; Str sid;
                              Str "' set to "; Flt passed; Str "."]]
                   (update p (sound_set_pan s passed) w)) /\
       float_le f_neg_1_0 passed = true /\ float_le passed f_1_0 = true /\
       (float_lt pan f_neg_1_0 = true -> passed = f_neg_1_0) /\
       (float_lt f_1_0 pan = true -> passed = f_1_0) /\
       (float_lt pan f_neg_1_0 = false -> float_lt f_1_0 pan = false -> passed = pan) /\
       (pan = f_neg_2_0 -> passed = f_neg_1_0)) /\
  (forall pitch,
     exists passed,
       SetSoundPitch (Some sid) pitch w =
         Some (tt, log [Engine (Call_ma_sound_set_pitch p passed);
                        Cout [Str "SoundSystem: Pitch for sound ID '"; Str sid;
                              Str "' set to "; Flt passed; Str "."]]
                   (update p (sound_set_pitch s passed) w)) /\
       float_le passed f_0_0 = false /\
       (float_le pitch f_0_0 = true -> passed = f_0_001) /\
       (float_le pitch f_0_0 = false -> passed = pitch) /\
       float_lt f_0_0 f_0_001 = true).
Proof.
  intros Hentry Hlive. split; [|split].
  - intros volume Hnum. exists (std_clamp volume f_0_0 f_1_0).
    split; [by apply SetSoundVolume_known|].
    destruct (std_clamp_between volume f_0_0 f_1_0 Hnum eq_refl eq_refl eq_refl) as [Hlo Hhi].
    split; [exact Hlo|]. split; [exact Hhi|].
    unfold std_clamp. repeat split.
    + by intros ->.
    + intros H. destruct (float_lt volume f_0_0) eqn:E; [|by rewrite H].
      destruct (not_below_0_and_above_1 volume E H).
    + by intros -> ->.
    + by intros ->.
    + by intros ->.
  - intros pan Hnum. exists (std_clamp pan f_neg_1_0 f_1_0).
    split; [by apply SetSoundPan_known|].
    destruct (std_clamp_between pan f_neg_1_0 f_1_0 Hnum eq_refl eq_refl eq_refl) as [Hlo Hhi].
    split; [exact Hlo|]. split; [exact Hhi|].
    unfold std_clamp. repeat split.
    + by intros ->.
    + intros H. destruct (float_lt pan f_neg_1_0) eqn:E; [|by rewrite H].
      destruct (not_below_neg_1_and_above_1 pan E H).
    + by intros -> ->.
    + by intros ->.
  - intros pitch. exists (floored_pitch pitch).
    split; [by apply SetSoundPitch_known|].
    split; [apply floored_pitch_above_zero|].
    unfold floored_pitch. repeat split.
    + by intros ->.
    + by intros ->.
Qed.

(** C9 on the reference engine: the volume 1.5 reaches the engine as 1.0. *)
Lemma C9_witness :
  exists w',
    SetSoundVolume (MA := Ref.accepting) (PF := Ref.platform) (Some "explosion"%string) f_1_5
      (Ref.one_sound (fun _ => true) MA_SUCCESS (Ref.sound_at true 5)) = Some (tt, w') /\
    engine_calls (trace w') = [Call_ma_sound_set_volume 1 f_1_0] /\
    (Ref.volume <$> sound_of w' "explosion") = Some f_1_0.
Proof.
  destruct (proj1 (C9_setters_clamp_numbers (MA := Ref.accepting) (PF := Ref.platform)
                     (Ref.one_sound (fun _ => true) MA_SUCCESS (Ref.sound_at true 5))
                     "explosion"%string 1%N (Ref.sound_at true 5) eq_refl eq_refl)
              f_1_5 eq_refl)
    as (passed & Hrun & _ & _ & _ & _ & _ & Hexample & _).
  rewrite (Hexample eq_refl) in Hrun.
  eexists. split; [exact Hrun|]. split; reflexivity.
Defined.

(** C9 as claimed fails for the input NaN: [std::clamp] returns it, so
    [SetSoundVolume] and [SetSoundPan] hand the engine a value that is not
    within the bounds. *)
Lemma C9_counterexample :
  (exists w',
     SetSoundVolume (MA := Ref.accepting) (PF := Ref.platform) (Some "explosion"%string)
       S754_nan (Ref.one_sound (fun _ => true) MA_SUCCESS (Ref.sound_at true 5))
       = Some (tt, w') /\
     engine_calls (trace w') = [Call_ma_sound_set_volume 1 S754_nan] /\
     (Ref.volume <$> sound_of w' "explosion") = Some S754_nan) /\
  (exists w',
     SetSoundPan (MA := Ref.accepting) (PF := Ref.platform) (Some "explosion"%string)
       S754_nan (Ref.one_sound (fun _ => true) MA_SUCCESS (Ref.sound_at true 5))
       = Some (tt, w') /\
     engine_calls (trace w') = [Call_ma_sound_set_pan 1 S754_nan] /\
     (Ref.pan <$> sound_of w' "explosion") = Some S754_nan) /\
  float_le f_0_0 S754_nan = false /\
  float_le S754_nan f_1_0 = false /\
  float_le f_neg_1_0 S754_nan = false.
Proof.
  split; [|split].
  - eexists. split; [vm_compute; reflexivity|]. split; reflexivity.
  - eexists. split; [vm_compute; reflexivity|]. split; reflexivity.
  - repeat split.
Qed.

(** ** Unknown and null identifiers *)

(** C6. For every identifier that is not in the registry, [UnloadSound],
    [SndPlaySound], [StopSound], [PauseSound], [ResumeSound] and the four
    per-sound setters return normally, print one warning and change nothing
    else: the registry, the heap and the engine are as before and the engine
    is not called.  [IsSoundPlaying] returns [false] for such an identifier
    and for the null identifier, and changes nothing at all. *)
Theorem C6_unknown_id_is_a_warned_no_op
    {MA : MiniAudio} {PF : Platform} (w : world) (sid : string) :
  g_loadedSounds w !! sid = None ->
  warned_no_op (UnloadSound (Some sid)) w /\
  (forall loop, warned_no_op (SndPlaySound (Some sid) loop) w) /\
  warned_no_op (StopSound (Some sid)) w /\
  warned_no_op (PauseSound (Some sid)) w /\
  warned_no_op (ResumeSound (Some sid)) w /\
  (forall volume, warned_no_op (SetSoundVolume (Some sid) volume) w) /\
  (forall pan, warned_no_op (SetSoundPan (Some sid) pan) w) /\
  (forall pitch, warned_no_op (SetSoundPitch (Some sid) pitch) w) /\
  (forall x y z, warned_no_op (SetSoundPosition (Some sid) x y z) w) /\
  IsSoundPlaying (Some sid) w = Some (false, w) /\
  IsSoundPlaying None w = Some (false, w).
Proof.
  intros Habsent. repeat split; intros.
  - by apply UnloadSound_unknown.
  - by apply SndPlaySound_unknown.
  - by apply StopSound_unknown.
  - by apply PauseSound_unknown.
  - by apply ResumeSound_unknown.
  - by apply SetSoundVolume_unknown.
  - by apply SetSoundPan_unknown.
  - by apply SetSoundPitch_unknown.
  - by apply SetSoundPosition_unknown.
  - by apply IsSoundPlaying_unknown.
Qed.

(** C6 on the reference engine: ["missing"] is not in the registry. *)
Lemma C6_witness :
  warned_no_op (PF := Ref.platform)
    (SndPlaySound (MA := Ref.accepting) (PF := Ref.platform) (Some "missing"%string) false)
    (Ref.one_sound (fun _ => true) MA_SUCCESS (Ref.sound_at true 5)) /\
  IsSoundPlaying (MA := Ref.accepting) (Some "missing"%string)
    (Ref.one_sound (fun _ => true) MA_SUCCESS (Ref.sound_at true 5)) =
  Some (false, Ref.one_sound (fun _ => true) MA_SUCCESS (Ref.sound_at true 5)).
Proof.
  destruct (C6_unknown_id_is_a_warned_no_op (MA := Ref.accepting) (PF := Ref.platform)
              (Ref.one_sound (fun _ => true) MA_SUCCESS (Ref.sound_at true 5))
              "missing"%string eq_refl)
    as (_ & Hplay & _ & _ & _ & _ & _ & _ & _ & Hquery & _).
  split; [exact (Hplay false) | exact Hquery].
Defined.

(** C7, as the code has it.  Every operation that takes a [soundId]
    rejects the null identifier before it looks at the registry, and changes
    nothing in the registry, the heap or the engine.  [LoadSound] (whatever
    the path) and the void operations report it as an error on [std::cerr],
    [LoadSound] returning [false]; [IsSoundPlaying] returns [false] and
    reports nothing. *)
Theorem C7_null_id_is_rejected
    {MA : MiniAudio} {PF : Platform} (w : world) :
  (forall filePath, rejected_with false (LoadSound filePath None) w) /\
  rejected_with tt (UnloadSound None) w /\
  (forall loop, rejected_with tt (SndPlaySound None loop) w) /\
  rejected_with tt (StopSound None) w /\
  rejected_with tt (PauseSound None) w /\
  rejected_with tt (ResumeSound None) w /\
  (forall volume, rejected_with tt (SetSoundVolume None volume) w) /\
  (forall pan, rejected_with tt (SetSoundPan None pan) w) /\
  (forall pitch, rejected_with tt (SetSoundPitch None pitch) w) /\
  (forall x y z, rejected_with tt (SetSoundPosition None x y z) w) /\
  IsSoundPlaying None w = Some (false, w).
Proof.
  repeat split; intros.
  - apply LoadSound_null_id.
  - apply UnloadSound_null.
  - apply SndPlaySound_null.
  - apply StopSound_null.
  - apply PauseSound_null.
  - apply ResumeSound_null.
  - apply SetSoundVolume_null.
  - apply SetSoundPan_null.
  - apply SetSoundPitch_null.
  - apply SetSoundPosition_null.
Qed.

(** C7 as claimed fails for the empty string, which no operation rejects:
    [LoadSound] registers a sound under it, and [StopSound] on a registry
    that does not have it prints the unknown-identifier warning, not an
    error.  It also fails for [IsSoundPlaying] on the null identifier, which
    reports nothing. *)
Lemma C7_counterexample :
  (exists w',
     LoadSound (MA := Ref.accepting) (PF := Ref.platform)
       (Some "a.wav"%string) (Some ""%string) (Ref.no_sound (fun _ => true) MA_SUCCESS)
       = Some (true, w') /\
     g_loadedSounds (Ref.no_sound (fun _ => true) MA_SUCCESS) !! ""%string = None /\
     g_loadedSounds w' !! ""%string = Some 1%N /\
     heap w' !! 1%N = Some (Ref.sound_at false 0)) /\
  (exists w',
     StopSound (MA := Ref.accepting) (PF := Ref.platform) (Some ""%string)
       (Ref.no_sound (fun _ => true) MA_SUCCESS) = Some (tt, w') /\
     trace w' =
       [Cerr [Str "SoundSystem WARNING: Attempted to stop non-existent sound ID '";
              Str ""; Str "'."]]) /\
  (exists w',
     IsSoundPlaying (MA := Ref.accepting) None (Ref.no_sound (fun _ => true) MA_SUCCESS)
       = Some (false, w') /\
     trace w' = []).
Proof.
  split; [|split].
  - eexists. split; [vm_compute; reflexivity|]. repeat split.
  - eexists. split; [vm_compute; reflexivity|]. reflexivity.
  - eexists. split; reflexivity.
Qed.

(** ** Pause against Stop *)

(** C10, as the code has it.  For a sound entry present in the registry,
    playing or not, [PauseSound] never asks whether the sound is playing: its
    one engine call is stop, and it reports what the engine answered, success
    when the stop returned [MA_SUCCESS] and an error otherwise.  [StopSound]
    instead asks first, and on a sound that is not playing it makes no other
    call, prints an informational line and changes nothing else. *)
Theorem C10_pause_calls_stop_unconditionally
    {MA : MiniAudio} {PF : Platform} (w : world) (sid : string) (p : ptr) (s : ma_sound) :
  g_loadedSounds w !! sid = Some p ->
  heap w !! p = Some s ->
  (exists w',
     PauseSound (Some sid) w = Some (tt, w') /\
     engine_calls (trace w') =
       engine_calls (trace w) ++ [Call_ma_sound_stop p (sound_stop s).1] /\
     sound_of w' sid = Some (sound_stop s).2 /\
     ((sound_stop s).1 = MA_SUCCESS ->
      trace w' =
        trace w ++ [Engine (Call_ma_sound_stop p MA_SUCCESS);
                    Cout [Str "SoundSystem: Paused sound ID '"; Str sid; Str "'."]]) /\
     ((sound_stop s).1 <> MA_SUCCESS ->
      trace w' =
        trace w ++ Engine (Call_ma_sound_stop p (sound_stop s).1) ::
          error_events [Str "SoundSystem ERROR: Failed to pause sound with ID '";
                        Str sid; Str "'. Result: "; Res (sound_stop s).1])) /\
  (sound_is_playing s = false ->
   StopSound (Some sid) w =
     Some (tt, log [Engine (Call_ma_sound_is_playing p false);
                    Cout [Str "SoundSystem: Sound ID '"; Str sid;
                          Str "' is not playing. No action needed."]] w)).
Proof.
  intros Hentry Hlive. split.
  - rewrite (PauseSound_known w sid p s Hentry Hlive).
    eexists. split; [reflexivity|].
    split; [calls|]. split; [apply (sound_of_update w sid p Hentry)|].
    autorewrite with world. split.
    + intros ->. reflexivity.
    + intros Hko. apply Z.eqb_neq in Hko. by rewrite Hko.
  - apply StopSound_not_playing; assumption.
Qed.

(** C10 on the reference engine: a sound that is not playing, paused and
    stopped. *)
Lemma C10_witness :
  (exists w',
     PauseSound (MA := Ref.accepting) (PF := Ref.platform) (Some "explosion"%string)
       (Ref.one_sound (fun _ => true) MA_SUCCESS (Ref.sound_at false 5)) = Some (tt, w') /\
     trace w' =
       [Engine (Call_ma_sound_stop 1 MA_SUCCESS);
        Cout [Str "SoundSystem: Paused sound ID '"; Str "explosion"; Str "'."]]) /\
  StopSound (MA := Ref.accepting) (PF := Ref.platform) (Some "explosion"%string)
    (Ref.one_sound (fun _ => true) MA_SUCCESS (Ref.sound_at false 5)) =
  Some (tt, log [Engine (Call_ma_sound_is_playing 1 false);
                 Cout [Str "SoundSystem: Sound ID '"; Str "explosion";
                       Str "' is not playing. No action needed."]]
          (Ref.one_sound (fun _ => true) MA_SUCCESS (Ref.sound_at false 5))).
Proof.
  destruct (C10_pause_calls_stop_unconditionally (MA := Ref.accepting) (PF := Ref.platform)
              (Ref.one_sound (fun _ => true) MA_SUCCESS (Ref.sound_at false 5))
              "explosion"%string 1%N (Ref.sound_at false 5) eq_refl eq_refl)
    as [(w' & Hrun & _ & _ & Hok & _) Hstop].
  split.
  - exists w'. split; [exact Hrun | exact (Hok eq_refl)].
  - exact (Hstop eq_refl).
Defined.

(** C10 as claimed fails when the engine refuses the stop: [PauseSound] on a
    sound that is not playing then reports an error, not success. *)
Lemma C10_counterexample :
  playing_of (Ref.one_sound (fun _ => true) (-1) (Ref.sound_at false 5)) "explosion"
    = Some false /\
  exists w',
    PauseSound (MA := Ref.refusing) (PF := Ref.platform) (Some "explosion"%string)
      (Ref.one_sound (fun _ => true) (-1) (Ref.sound_at false 5)) = Some (tt, w') /\
    trace w' =
      [Engine (Call_ma_sound_stop 1 (-1));
       Cerr [Str "SoundSystem ERROR: Failed to pause sound with ID '"; Str "explosion";
             Str "'. Result: "; Res (-1)]].
Proof.
  split; [reflexivity|].
  eexists. split; [vm_compute; reflexivity|]. reflexivity.
Qed.

(** ** Shutdown *)

(** C8, at a playing sound.  With one entry whose sound is playing,
    [ShutdownSoundSystem] uninitialises and deletes the object, clears the
    registry and uninitialises the engine, but never asks whether the sound
    is playing and never calls the engine's stop; [UnloadSound] on the same
    state does both before it releases the object. *)
Theorem C8_shutdown_releases_without_stopping :
  playing_of (Ref.one_sound (fun _ => true) MA_SUCCESS (Ref.sound_at true 5)) "explosion"
    = Some true /\
  (exists w',
     ShutdownSoundSystem (MA := Ref.accepting)
       (Ref.one_sound (fun _ => true) MA_SUCCESS (Ref.sound_at true 5)) = Some (tt, w') /\
     trace w' =
       [Engine (Call_ma_sound_uninit 1); Delete 1; Engine Call_ma_engine_uninit;
        Cout [Str "SoundSystem: Shut down successfully."]] /\
     g_loadedSounds w' = ∅ /\
     heap w' = ∅) /\
  (exists w',
     UnloadSound (MA := Ref.accepting) (PF := Ref.platform) (Some "explosion"%string)
       (Ref.one_sound (fun _ => true) MA_SUCCESS (Ref.sound_at true 5)) = Some (tt, w') /\
     trace w' =
       [Engine (Call_ma_sound_is_playing 1 true); Engine (Call_ma_sound_stop 1 MA_SUCCESS);
        Engine (Call_ma_sound_uninit 1); Delete 1;
        Cout [Str "SoundSystem: Unloaded sound with ID '"; Str "explosion"; Str "'."]] /\
     g_loadedSounds w' = ∅ /\
     heap w' = ∅).
Proof.
  split; [reflexivity|]. split.
  - eexists. split; [vm_compute; reflexivity|]. repeat split.
  - eexists. split; [vm_compute; reflexivity|]. repeat split.
Qed.

(** The general statement: what [ShutdownSoundSystem] does to any registry
    that owns its objects. *)
Section Shutdown.
Context {MA : MiniAudio}.

Lemma release_all_lookup ps h q :
  release_all ps h !! q = if decide (q ∈ ps) then None else h !! q.
Proof.
  revert h. induction ps as [|p ps IH]; intros h; cbn.
  - case_decide as H; [by apply elem_of_nil in H | done].
  - unfold release_all in IH. rewrite IH.
    destruct (decide (q = p)) as [->|Hne].
    + rewrite (decide_True (P := p ∈ p :: ps)) by left.
      destruct (decide (p ∈ ps)); [done | apply lookup_delete_eq].
    + rewrite lookup_delete_ne by done.
      destruct (decide (q ∈ ps)) as [Hin|Hnin].
      * rewrite (decide_True (P := q ∈ p :: ps)); [done | by right].
      * rewrite (decide_False (P := q ∈ p :: ps)); [done|].
        intros [?|?]%elem_of_cons; done.
Qed.

Lemma set_heap_same w : set_heap (heap w) w = w.
Proof. by destruct w. Qed.

Lemma release_update p s w : release p (update p s w) = release p w.
Proof. unfold release, update, set_heap. cbn. by rewrite delete_insert_eq. Qed.

Lemma for_each_release (l : list (string * ptr)) (w1 : world) :
  NoDup l.*2 ->
  (forall e, e ∈ l -> e.2 <> NULL /\ is_Some (heap w1 !! e.2)) ->
  for_each l (fun '(soundId, soundPtr) =>
    if negb (soundPtr =? NULL)%N then
      ma_sound_uninit soundPtr ;;
      delete_ma_sound soundPtr
    else ret tt) w1 =
  Some (tt, log (release_events l) (set_heap (release_all l.*2 (heap w1)) w1)).
Proof.
  revert w1. induction l as [|[sid p] l IH]; intros w1 Hnodup Hlive.
  - cbn. by rewrite set_heap_same, log_nil.
  - rewrite fmap_cons in Hnodup. apply NoDup_cons in Hnodup as [Hfresh Hnodup].
    destruct (Hlive (sid, p) ltac:(left)) as [Hp [s Hs]]. cbn in Hp, Hs, Hfresh.
    cbn [for_each]. apply N.eqb_neq in Hp as Hp'. rewrite Hp'. cbn [negb].
    unfold ma_sound_uninit. run_step. run_step. cbn [fst snd].
    erewrite bind_run by (eapply delete_ma_sound_run; [done | live]).
    rewrite release_log, release_update, log_log.
    rewrite IH; [|done|].
    + unfold release, log, set_trace, set_heap. cbn. by rewrite <- app_assoc.
    + intros e He. destruct (Hlive e ltac:(by right)) as [? [s' Hs']].
      split; [done|]. exists s'. rewrite heap_log. cbn.
      rewrite lookup_delete_ne; [done|].
      intros ->. apply Hfresh. apply list_elem_of_fmap. by exists e.
Qed.

Lemma entries_spec w sid p :
  (sid, p) ∈ entries w <-> g_loadedSounds w !! sid = Some p.
Proof.
  unfold entries. rewrite merge_sort_Permutation. apply elem_of_map_to_list.
Qed.

Lemma entries_NoDup w : registry_owns w -> NoDup (entries w).*2.
Proof.
  intros [_ Hinj]. unfold entries. rewrite merge_sort_Permutation.
  apply NoDup_fmap_2_strong; [|apply NoDup_map_to_list].
  intros [sid1 p1] [sid2 p2] H1%elem_of_map_to_list H2%elem_of_map_to_list Heq.
  cbn in Heq. subst p2. f_equal. by eapply Hinj.
Qed.

Lemma ShutdownSoundSystem_owned w :
  registry_owns w ->
  ShutdownSoundSystem w =
    Some (tt, log (release_events (entries w) ++
                   [Engine Call_ma_engine_uninit;
                    Cout [Str "SoundSystem: Shut down successfully."]])
              (set_engine (engine_uninit (g_engine w))
                 (set_loadedSounds ∅
                    (set_heap (release_all (entries w).*2 (heap w)) w)))).
Proof.
  intros Hown. unfold ShutdownSoundSystem.
  erewrite bind_run by reflexivity. fold (entries w).
  erewrite bind_run.
  2:{ apply for_each_release; [by apply entries_NoDup|].
      intros [sid p] He%entries_spec. by apply (proj1 Hown sid). }
  unfold clear, ma_engine_uninit, on_engine.
  erewrite bind_run by reflexivity. erewrite bind_run by reflexivity.
  rewrite cout_run. unfold log, set_trace, set_engine, set_loadedSounds, set_heap. cbn.
  by rewrite <- !app_assoc.
Qed.

End Shutdown.

Lemma engine_calls_release_events l :
  engine_calls (release_events l) = map (fun e => Call_ma_sound_uninit e.2) l.
Proof.
  induction l as [|e l IH]; [reflexivity|].
  change (release_events (e :: l))
    with ([Engine (Call_ma_sound_uninit e.2); Delete e.2] ++ release_events l).
  rewrite engine_calls_app, IH. reflexivity.
Qed.

(** Shutdown, in general.  On a registry that owns its objects,
    [ShutdownSoundSystem] returns; afterwards the registry is empty, every
    object the registry held is gone from the heap and every other object is
    untouched, and the engine is uninitialised.  Its engine calls are one
    [ma_sound_uninit] per entry, in key order, then [ma_engine_uninit]: it
    never asks whether a sound is playing and never stops one. *)
Theorem Shutdown_releases_every_sound {MA : MiniAudio} (w : world) :
  registry_owns w ->
  exists w',
    ShutdownSoundSystem w = Some (tt, w') /\
    g_loadedSounds w' = ∅ /\
    (forall sid p, g_loadedSounds w !! sid = Some p -> heap w' !! p = None) /\
    (forall q, (forall sid, g_loadedSounds w !! sid <> Some q) ->
       heap w' !! q = heap w !! q) /\
    g_engine w' = engine_uninit (g_engine w) /\
    engine_calls (trace w') =
      engine_calls (trace w) ++
        map (fun e => Call_ma_sound_uninit e.2) (entries w) ++ [Call_ma_engine_uninit].
Proof.
  intros Hown. rewrite (ShutdownSoundSystem_owned w Hown).
  eexists. split; [reflexivity|]. split; [reflexivity|]. split; [|split; [|split]].
  - intros sid p Hentry. cbn. rewrite release_all_lookup.
    rewrite decide_True; [done|].
    apply list_elem_of_fmap. exists (sid, p). split; [done|]. by apply entries_spec.
  - intros q Hq. cbn. rewrite release_all_lookup.
    rewrite decide_False; [done|].
    intros [[sid p] [-> He%entries_spec]]%list_elem_of_fmap. by apply (Hq sid).
  - reflexivity.
  - rewrite trace_log. cbn [trace set_engine set_loadedSounds set_heap].
    rewrite !engine_calls_app, engine_calls_release_events. reflexivity.
Qed.

Lemma Ref_one_sound_owns readable transition s :
  registry_owns (Ref.one_sound readable transition s).
Proof.
  assert (Hreg : g_loadedSounds (Ref.one_sound readable transition s)
                 = {[ "explosion"%string := 1%N ]}) by reflexivity.
  split.
  - intros sid p. rewrite Hreg. intros [<- <-]%lookup_singleton_Some.
    split; [done|]. by exists s.
  - intros sid1 sid2 p. rewrite Hreg.
    intros [<- _]%lookup_singleton_Some [<- _]%lookup_singleton_Some. reflexivity.
Qed.

(** Shutdown of the registry with one playing sound. *)
Lemma Shutdown_witness :
  exists w',
    ShutdownSoundSystem (MA := Ref.accepting)
      (Ref.one_sound (fun _ => true) MA_SUCCESS (Ref.sound_at true 5)) = Some (tt, w') /\
    g_loadedSounds w' = ∅ /\
    heap w' !! 1%N = None.
Proof.
  destruct (Shutdown_releases_every_sound (MA := Ref.accepting)
              (Ref.one_sound (fun _ => true) MA_SUCCESS (Ref.sound_at true 5)))
    as (w' & Hrun & Hempty & Hgone & _).
  - apply Ref_one_sound_owns.
  - exists w'. split; [exact Hrun|]. split; [exact Hempty|].
    apply (Hgone "explosion"%string). reflexivity.
Defined.

(** ** Unload *)

(** Unload of a present entry.  [UnloadSound] asks whether the sound is
    playing, stops it if so, uninitialises and deletes the object and erases
    the entry: afterwards the identifier is not in the registry and the
    object is not in the heap. *)
Theorem UnloadSound_releases_the_entry
    {MA : MiniAudio} {PF : Platform} (w : world) (sid : string) (p : ptr) (s : ma_sound) :
  g_loadedSounds w !! sid = Some p ->
  heap w !! p = Some s ->
  p <> NULL ->
  exists w',
    UnloadSound (Some sid) w = Some (tt, w') /\
    g_loadedSounds w' = delete sid (g_loadedSounds w) /\
    heap w' = delete p (heap w) /\
    g_engine w' = g_engine w /\
    trace w' =
      trace w ++
        Engine (Call_ma_sound_is_playing p (sound_is_playing s)) ::
        (if sound_is_playing s then [Engine (Call_ma_sound_stop p (sound_stop s).1)] else []) ++
        [Engine (Call_ma_sound_uninit p); Delete p;
         Cout [Str "SoundSystem: Unloaded sound with ID '"; Str sid; Str "'."]].
Proof.
  intros Hentry Hlive Hp. unfold UnloadSound. unfold_calls.
  run_step. rewrite Hentry. run_step. cbn [fst snd].
  destruct (sound_is_playing s).
  - repeat run_step.
    erewrite bind_run by (eapply delete_ma_sound_run; [done | live]).
    run. rewrite release_log, release_update.
    eexists. split; [reflexivity|]. repeat split. cbn. by rewrite <- app_assoc.
  - repeat run_step.
    erewrite bind_run by (eapply delete_ma_sound_run; [done | live]).
    run. rewrite release_log, release_update.
    eexists. split; [reflexivity|]. repeat split. cbn. by rewrite <- app_assoc.
Qed.

(** Unload of the one playing sound. *)
Lemma UnloadSound_witness :
  exists w',
    UnloadSound (MA := Ref.accepting) (PF := Ref.platform) (Some "explosion"%string)
      (Ref.one_sound (fun _ => true) MA_SUCCESS (Ref.sound_at true 5)) = Some (tt, w') /\
    g_loadedSounds w' = ∅ /\
    heap w' = ∅.
Proof.
  destruct (UnloadSound_releases_the_entry (MA := Ref.accepting) (PF := Ref.platform)
              (Ref.one_sound (fun _ => true) MA_SUCCESS (Ref.sound_at true 5))
              "explosion"%string 1%N (Ref.sound_at true 5) eq_refl eq_refl)
    as (w' & Hrun & Hreg & Hheap & _).
  - discriminate.
  - exists w'. split; [exact Hrun|]. split.
    + rewrite Hreg. apply delete_singleton_eq.
    + rewrite Hheap. apply delete_singleton_eq.
Defined.

(** ** The life of one sound *)

(** The scenario of the specification, on any engine that keeps the
    contract and accepts the transitions it is asked for: after
    [LoadSound] of a new identifier succeeds, [SndPlaySound] makes
    [IsSoundPlaying] answer [true], and [StopSound] then makes it answer
    [false] and leaves the sound at frame 0. *)
Theorem load_play_stop_scenario
    {MA : MiniAudio} {PF : Platform} (w : world) (filePath sid : string) :
  engine_contract ->
  (forall s, (sound_start s).1 = MA_SUCCESS) ->
  (forall s, (sound_stop s).1 = MA_SUCCESS) ->
  g_loadedSounds w !! sid = None ->
  new_nothrow (dom (heap w)) <> NULL ->
  (decoded w filePath).1 = MA_SUCCESS ->
  exists w1 w2 w3 w4 w5,
    LoadSound (Some filePath) (Some sid) w = Some (true, w1) /\
    SndPlaySound (Some sid) false w1 = Some (tt, w2) /\
    IsSoundPlaying (Some sid) w2 = Some (true, w3) /\
    StopSound (Some sid) w3 = Some (tt, w4) /\
    IsSoundPlaying (Some sid) w4 = Some (false, w5) /\
    position_of w5 sid = Some 0%N /\
    dom (g_loadedSounds w5) = {[ sid ]} ∪ dom (g_loadedSounds w).
Proof.
  intros C Hstart Hstop Habsent Halloc Hdecode.
  set (p := new_nothrow (dom (heap w))).
  (* Load *)
  pose proof (LoadSound_success w filePath sid Habsent Halloc Hdecode) as Hload.
  match type of Hload with _ = Some (_, ?x) => set (w1 := x) in * end.
  assert (Hentry1 : g_loadedSounds w1 !! sid = Some p) by apply lookup_insert_eq.
  assert (Hlive1 : heap w1 !! p = Some (decoded w filePath).2) by apply lookup_insert_eq.
  (* Play *)
  assert (Hplay : exists l s2,
             SndPlaySound (Some sid) false w1 = Some (tt, log l (update p s2 w1)) /\
             sound_is_playing s2 = true).
  { destruct (sound_is_playing (decoded w filePath).2) eqn:Hp.
    - rewrite (SndPlaySound_playing w1 sid p _ Hentry1 Hlive1 false Hp).
      eexists _, _. split; [reflexivity|]. unfold restarted. by apply (start_starts C).
    - rewrite (SndPlaySound_not_playing w1 sid p _ Hentry1 Hlive1 false Hp).
      eexists _, _. split; [reflexivity|]. by apply (start_starts C). }
  destruct Hplay as (l2 & s2 & Hplay & Hplaying2).
  set (w2 := log l2 (update p s2 w1)) in *.
  assert (Hentry2 : g_loadedSounds w2 !! sid = Some p) by exact Hentry1.
  assert (Hlive2 : heap w2 !! p = Some s2) by apply lookup_insert_eq.
  (* IsSoundPlaying *)
  pose proof (IsSoundPlaying_known w2 sid p s2 Hentry2 Hlive2) as Hquery.
  rewrite Hplaying2 in Hquery.
  match type of Hquery with _ = Some (_, ?x) => set (w3 := x) in * end.
  (* Stop *)
  pose proof (StopSound_playing_accepted w3 sid p s2 Hentry2 Hlive2 Hplaying2 (Hstop s2))
    as Hstopped.
  match type of Hstopped with _ = Some (_, ?x) => set (w4 := x) in * end.
  assert (Hlive4 : heap w4 !! p = Some (sound_seek_to_pcm_frame (sound_stop s2).2 0).2)
    by apply lookup_insert_eq.
  (* IsSoundPlaying *)
  pose proof (IsSoundPlaying_known w4 sid p _ Hentry2 Hlive4) as Hquery4.
  rewrite (seek_keeps_playing C), (stop_stops C _ (Hstop s2)) in Hquery4.
  exists w1, w2, w3, w4. eexists.
  split; [exact Hload|]. split; [exact Hplay|]. split; [exact Hquery|].
  split; [exact Hstopped|]. split; [exact Hquery4|]. split.
  - unfold position_of, sound_of. autorewrite with world.
    change (g_loadedSounds w4) with (g_loadedSounds w1). rewrite Hentry1, Hlive4.
    cbn. by rewrite (seek_sets_cursor C).
  - autorewrite with world. change (g_loadedSounds w4) with (<[sid := p]> (g_loadedSounds w)).
    apply dom_insert_L.
Qed.

(** The scenario on the reference engine, from the empty registry. *)
Lemma load_play_stop_witness :
  exists w1 w2 w3 w4 w5,
    LoadSound (MA := Ref.accepting) (PF := Ref.platform)
      (Some "a.wav"%string) (Some "explosion"%string) (Ref.no_sound (fun _ => true) MA_SUCCESS)
      = Some (true, w1) /\
    SndPlaySound (MA := Ref.accepting) (PF := Ref.platform) (Some "explosion"%string) false w1
      = Some (tt, w2) /\
    IsSoundPlaying (MA := Ref.accepting) (Some "explosion"%string) w2 = Some (true, w3) /\
    StopSound (MA := Ref.accepting) (PF := Ref.platform) (Some "explosion"%string) w3
      = Some (tt, w4) /\
    IsSoundPlaying (MA := Ref.accepting) (Some "explosion"%string) w4 = Some (false, w5).
Proof.
  destruct (load_play_stop_scenario (MA := Ref.accepting) (PF := Ref.platform)
              (Ref.no_sound (fun _ => true) MA_SUCCESS) "a.wav"%string "explosion"%string
              (Ref_contract _ _))
    as (w1 & w2 & w3 & w4 & w5 & H1 & H2 & H3 & H4 & H5 & _).
  - intros s. reflexivity.
  - intros s. reflexivity.
  - reflexivity.
  - vm_compute. discriminate.
  - reflexivity.
  - exists w1, w2, w3, w4, w5. repeat split; assumption.
Defined.

(** When [new (std::nothrow)] returns [NULL], [LoadSound] reports the error
    and returns [false] without calling the engine. *)
Example LoadSound_without_memory :
  LoadSound (MA := Ref.accepting) (PF := Ref.platform_out_of_memory)
    (Some "a.wav"%string) (Some "explosion"%string) (Ref.no_sound (fun _ => true) MA_SUCCESS) =
  Some (false,
        log [New NULL;
             Cerr [Str "SoundSystem ERROR: Failed to allocate memory for new sound."]]
          (Ref.no_sound (fun _ => true) MA_SUCCESS)).
Proof. reflexivity. Qed.

(** ** Locality of the per-sound operations *)

Section Locality.
Context {MA : MiniAudio} {PF : Platform}.

Lemma local_to_log {A} soundId (m : M A) w a l :
  m w = Some (a, log l w) -> local_to soundId m w.
Proof.
  intros Hrun. exists a, (log l w). split; [exact Hrun|].
  repeat split; try done. by exists l.
Qed.

Lemma local_to_update {A} sid (m : M A) w a l p s s' :
  g_loadedSounds w !! sid = Some p -> heap w !! p = Some s ->
  m w = Some (a, log l (update p s' w)) -> local_to (Some sid) m w.
Proof.
  intros Hentry Hlive Hrun. exists a, (log l (update p s' w)).
  split; [exact Hrun|]. split; [reflexivity|]. split; [reflexivity|]. split; [|split].
  - autorewrite with world. apply dom_insert_lookup_L. by rewrite Hlive.
  - intros q Hq. autorewrite with world. apply lookup_insert_ne.
    intros ->. by apply Hq.
  - by exists l.
Qed.

(** Proof step: an operation on [soundId] is local when the identifier is
    null or unknown; what is left is the case of an entry with a live
    object. *)
Ltac known_or_local Hown unknown null :=
  match goal with
  | |- local_to ?soundId _ ?w =>
      destruct soundId as [sid|];
      [ destruct (g_loadedSounds w !! sid) as [p|] eqn:Hentry;
        [ destruct (proj1 Hown sid p Hentry) as [_ [s Hlive]]
        | destruct (unknown w sid Hentry) as (text & _ & Hrun);
          by eapply local_to_log ]
      | destruct (null w) as (text & _ & Hrun); by eapply local_to_log ]
  end.

Lemma SndPlaySound_local w soundId loop :
  registry_owns w -> local_to soundId (SndPlaySound soundId loop) w.
Proof.
  intros Hown.
  known_or_local Hown (fun w sid H => SndPlaySound_unknown w sid H loop)
                      (fun w => SndPlaySound_null w loop).
  destruct (sound_is_playing s) eqn:Hp.
  - eapply local_to_update; [done..|]. by apply SndPlaySound_playing.
  - eapply local_to_update; [done..|]. by apply SndPlaySound_not_playing.
Qed.

Lemma StopSound_local w soundId :
  registry_owns w -> local_to soundId (StopSound soundId) w.
Proof.
  intros Hown. known_or_local Hown StopSound_unknown StopSound_null.
  destruct (sound_is_playing s) eqn:Hp.
  - destruct (decide ((sound_stop s).1 = MA_SUCCESS)) as [Hok|Hko].
    + eapply local_to_update; [done..|]. by apply StopSound_playing_accepted.
    + eapply local_to_update; [done..|]. by apply StopSound_playing_refused.
  - eapply local_to_log. by eapply StopSound_not_playing.
Qed.

Lemma PauseSound_local w soundId :
  registry_owns w -> local_to soundId (PauseSound soundId) w.
Proof.
  intros Hown. known_or_local Hown PauseSound_unknown PauseSound_null.
  eapply local_to_update; [done..|]. by apply PauseSound_known.
Qed.

Lemma ResumeSound_local w soundId :
  registry_owns w -> local_to soundId (ResumeSound soundId) w.
Proof.
  intros Hown. known_or_local Hown ResumeSound_unknown ResumeSound_null.
  eapply local_to_update; [done..|]. by apply ResumeSound_known.
Qed.

Lemma SetSoundVolume_local w soundId volume :
  registry_owns w -> local_to soundId (SetSoundVolume soundId volume) w.
Proof.
  intros Hown.
  known_or_local Hown (fun w sid H => SetSoundVolume_unknown w sid H volume)
                      (fun w => SetSoundVolume_null w volume).
  eapply local_to_update; [done..|]. by apply SetSoundVolume_known.
Qed.

Lemma SetSoundPan_local w soundId pan :
  registry_owns w -> local_to soundId (SetSoundPan soundId pan) w.
Proof.
  intros Hown.
  known_or_local Hown (fun w sid H => SetSoundPan_unknown w sid H pan)
                      (fun w => SetSoundPan_null w pan).
  eapply local_to_update; [done..|]. by apply SetSoundPan_known.
Qed.

Lemma SetSoundPitch_local w soundId pitch :
  registry_owns w -> local_to soundId (SetSoundPitch soundId pitch) w.
Proof.
  intros Hown.
  known_or_local Hown (fun w sid H => SetSoundPitch_unknown w sid H pitch)
                      (fun w => SetSoundPitch_null w pitch).
  eapply local_to_update; [done..|]. by apply SetSoundPitch_known.
Qed.

Lemma SetSoundPosition_local w soundId x y z :
  registry_owns w -> local_to soundId (SetSoundPosition soundId x y z) w.
Proof.
  intros Hown.
  known_or_local Hown (fun w sid H => SetSoundPosition_unknown w sid H x y z)
                      (fun w => SetSoundPosition_null w x y z).
  eapply local_to_update; [done..|]. by apply SetSoundPosition_known.
Qed.

Lemma IsSoundPlaying_local w soundId :
  registry_owns w -> local_to soundId (IsSoundPlaying soundId) w.
Proof.
  intros Hown. destruct soundId as [sid|].
  - destruct (g_loadedSounds w !! sid) as [p|] eqn:Hentry.
    + destruct (proj1 Hown sid p Hentry) as [_ [s Hlive]].
      eapply local_to_log. by eapply IsSoundPlaying_known.
    + eapply (local_to_log _ _ _ _ []). rewrite log_nil.
      by apply IsSoundPlaying_unknown.
  - eapply (local_to_log _ _ _ _ []). by rewrite log_nil.
Qed.

End Locality.

Lemma Ref_two_sounds_owns readable transition s1 s2 :
  registry_owns (Ref.two_sounds readable transition s1 s2).
Proof.
  assert (Hreg : g_loadedSounds (Ref.two_sounds readable transition s1 s2)
                 = {[ "explosion"%string := 1%N; "music"%string := 2%N ]}) by reflexivity.
  assert (Hheap : heap (Ref.two_sounds readable transition s1 s2)
                  = {[ 1%N := s1; 2%N := s2 ]}) by reflexivity.
  split.
  - intros sid p. rewrite Hreg, Hheap.
    intros [[<- <-]|[_ [<- <-]%lookup_singleton_Some]]%lookup_insert_Some;
      (split; [done|]); [by exists s1 | by exists s2].
  - intros sid1 sid2 p. rewrite Hreg.
    intros [[<- <-]|[_ [<- <-]%lookup_singleton_Some]]%lookup_insert_Some
           [[<- ?]|[_ [<- ?]%lookup_singleton_Some]]%lookup_insert_Some;
      done.
Qed.

(** The per-sound operations are local.  On a registry that owns its
    objects, [SndPlaySound], [StopSound], [PauseSound], [ResumeSound], the
    four per-sound setters and [IsSoundPlaying] return for every identifier
    (null, unknown or known) and every engine answer; they leave the
    registry and the engine state as they were, create and delete no
    object, and leave the object of every other identifier untouched. *)
Theorem per_sound_operations_are_local
    {MA : MiniAudio} {PF : Platform} (w : world) (soundId : option string) :
  registry_owns w ->
  (forall loop, local_to soundId (SndPlaySound soundId loop) w) /\
  local_to soundId (StopSound soundId) w /\
  local_to soundId (PauseSound soundId) w /\
  local_to soundId (ResumeSound soundId) w /\
  (forall volume, local_to soundId (SetSoundVolume soundId volume) w) /\
  (forall pan, local_to soundId (SetSoundPan soundId pan) w) /\
  (forall pitch, local_to soundId (SetSoundPitch soundId pitch) w) /\
  (forall x y z, local_to soundId (SetSoundPosition soundId x y z) w) /\
  local_to soundId (IsSoundPlaying soundId) w.
Proof.
  intros Hown. repeat split; intros.
  - by apply SndPlaySound_local.
  - by apply StopSound_local.
  - by apply PauseSound_local.
  - by apply ResumeSound_local.
  - by apply SetSoundVolume_local.
  - by apply SetSoundPan_local.
  - by apply SetSoundPitch_local.
  - by apply SetSoundPosition_local.
  - by apply IsSoundPlaying_local.
Qed.

(** Stopping ["explosion"] leaves ["music"] playing at its frame. *)
Lemma per_sound_operations_witness :
  exists w',
    StopSound (MA := Ref.accepting) (PF := Ref.platform) (Some "explosion"%string)
      (Ref.two_sounds (fun _ => true) MA_SUCCESS (Ref.sound_at true 5) (Ref.sound_at true 9))
      = Some (tt, w') /\
    heap w' !! 2%N = Some (Ref.sound_at true 9) /\
    g_loadedSounds w' =
      g_loadedSounds
        (Ref.two_sounds (fun _ => true) MA_SUCCESS (Ref.sound_at true 5) (Ref.sound_at true 9)).
Proof.
  destruct (per_sound_operations_are_local (MA := Ref.accepting) (PF := Ref.platform)
              (Ref.two_sounds (fun _ => true) MA_SUCCESS (Ref.sound_at true 5)
                 (Ref.sound_at true 9))
              (Some "explosion"%string) (Ref_two_sounds_owns _ _ _ _))
    as (_ & ([] & w' & Hrun & Hreg & _ & _ & Hframe & _) & _).
  exists w'. split; [exact Hrun|]. split; [|exact Hreg].
  etrans; [apply (Hframe 2%N); discriminate | reflexivity].
Defined.

(** ** The functions that only talk to the engine *)

Section EngineOnly.
Context {MA : MiniAudio} {PF : Platform}.

Lemma set_engine_log e l w : set_engine e (log l w) = log l (set_engine e w).
Proof. reflexivity. Qed.

Lemma ma_engine_init_run config w :
  ma_engine_init config w =
    Some ((engine_init config (g_engine w)).1,
          log [Engine (Call_ma_engine_init (engine_init config (g_engine w)).1)]
            (set_engine (engine_init config (g_engine w)).2 w)).
Proof. reflexivity. Qed.

Lemma on_engine_run f c w :
  on_engine f c w = Some (tt, log [Engine c] (set_engine (f (g_engine w)) w)).
Proof. reflexivity. Qed.

Lemma InitializeSoundSystem_run w :
  InitializeSoundSystem w =
    Some (((engine_init engine_config_init (g_engine w)).1 =? MA_SUCCESS),
          log (Engine (Call_ma_engine_init (engine_init engine_config_init (g_engine w)).1) ::
               (if negb ((engine_init engine_config_init (g_engine w)).1 =? MA_SUCCESS) then
                  error_events
                    [Str "SoundSystem ERROR: Failed to initialize miniaudio engine. Result: ";
                     Res (engine_init engine_config_init (g_engine w)).1]
                else [Cout [Str "SoundSystem: Initialized successfully."]]))
            (set_engine (engine_init engine_config_init (g_engine w)).2 w)).
Proof.
  unfold InitializeSoundSystem.
  erewrite bind_run by apply ma_engine_init_run.
  destruct (_ =? MA_SUCCESS); cbn [negb]; run; reflexivity.
Qed.

Lemma SetMasterVolume_run volume w :
  SetMasterVolume volume w =
    Some (tt, log [Engine (Call_ma_engine_set_volume (std_clamp volume f_0_0 f_1_0));
                   Cout [Str "SoundSystem: Master volume set to ";
                         Flt (std_clamp volume f_0_0 f_1_0); Str "."]]
              (set_engine (engine_set_volume (g_engine w) (std_clamp volume f_0_0 f_1_0)) w)).
Proof.
  unfold SetMasterVolume, ma_engine_set_volume.
  erewrite bind_run by apply on_engine_run. run. reflexivity.
Qed.

Lemma SetListenerPosition_run x y z w :
  SetListenerPosition x y z w =
    Some (tt, log [Engine (Call_ma_engine_listener_set_position 0 x y z);
                   Cout [Str "SoundSystem: Listener position set to ("; Flt x; Str ", ";
                         Flt y; Str ", "; Flt z; Str ")."]]
              (set_engine (engine_listener_set_position (g_engine w) 0 x y z) w)).
Proof.
  unfold SetListenerPosition, ma_engine_listener_set_position.
  erewrite bind_run by apply on_engine_run. run. reflexivity.
Qed.

Lemma SetListenerOrientation_run x y z w :
  SetListenerOrientation x y z w =
    Some (tt, log [Engine (Call_ma_engine_listener_set_direction 0 x y z);
                   Cout [Str "SoundSystem: Listener orientation set (Forward: (";
                         Flt x; Str ", "; Flt y; Str ", "; Flt z; Str "))."]]
              (set_engine (engine_listener_set_direction (g_engine w) 0 x y z) w)).
Proof.
  unfold SetListenerOrientation, ma_engine_listener_set_direction.
  erewrite bind_run by apply on_engine_run. run. reflexivity.
Qed.

Lemma engine_only_intro {A} (m : M A) w a l e :
  m w = Some (a, log l (set_engine e w)) -> engine_only m w.
Proof.
  intros Hrun. exists a, (log l (set_engine e w)). split; [exact Hrun|].
  repeat split. by exists l.
Qed.

Lemma InitializeSoundSystem_engine_only w : engine_only InitializeSoundSystem w.
Proof. eapply engine_only_intro. apply InitializeSoundSystem_run. Qed.
Lemma SetMasterVolume_engine_only volume w : engine_only (SetMasterVolume volume) w.
Proof. eapply engine_only_intro. apply SetMasterVolume_run. Qed.
Lemma SetListenerPosition_engine_only x y z w : engine_only (SetListenerPosition x y z) w.
Proof. eapply engine_only_intro. apply SetListenerPosition_run. Qed.
Lemma SetListenerOrientation_engine_only x y z w :
  engine_only (SetListenerOrientation x y z) w.
Proof. eapply engine_only_intro. apply SetListenerOrientation_run. Qed.

End EngineOnly.

(** ** The registry and the heap stay consistent *)

Section Consistency.
Context {MA : MiniAudio} {PF : Platform}.

Lemma consistent_initial e : consistent (initial_world e).
Proof.
  split; [split|].
  - intros sid p H. cbn in H. by rewrite lookup_empty in H.
  - intros sid1 sid2 p H. cbn in H. by rewrite lookup_empty in H.
  - intros p [s H]. cbn in H. by rewrite lookup_empty in H.
Qed.

Lemma consistent_same w w' :
  g_loadedSounds w' = g_loadedSounds w -> dom (heap w') = dom (heap w) ->
  consistent w -> consistent w'.
Proof.
  intros Hreg Hdom [[Hlive Hinj] Hleak]. split; [split|].
  - intros sid p Hentry. rewrite Hreg in Hentry.
    destruct (Hlive sid p Hentry) as [Hp Hs]. split; [done|].
    apply elem_of_dom. rewrite Hdom. by apply elem_of_dom.
  - intros sid1 sid2 p. rewrite Hreg. apply Hinj.
  - intros p Hp. rewrite Hreg. apply Hleak.
    apply elem_of_dom. rewrite <- Hdom. by apply elem_of_dom.
Qed.

Lemma consistent_local {A} soundId (m : M A) w :
  consistent w -> local_to soundId m w ->
  exists a w', m w = Some (a, w') /\ consistent w'.
Proof.
  intros Hc (a & w' & Hrun & Hreg & _ & Hdom & _). exists a, w'.
  split; [exact Hrun|]. by apply (consistent_same w).
Qed.

Lemma consistent_engine_only {A} (m : M A) w :
  consistent w -> engine_only m w ->
  exists a w', m w = Some (a, w') /\ consistent w'.
Proof.
  intros Hc (a & w' & Hrun & Hreg & Hheap & _). exists a, w'.
  split; [exact Hrun|]. apply (consistent_same w); [done | by rewrite Hheap | done].
Qed.

(** Registering a fresh object keeps the registry consistent. *)
Lemma consistent_register w sid p s :
  consistent w -> g_loadedSounds w !! sid = None -> p <> NULL -> heap w !! p = None ->
  consistent (set_loadedSounds (<[sid := p]> (g_loadedSounds w)) (update p s w)).
Proof.
  intros [[Hlive Hinj] Hleak] Habsent Hp Hfresh.
  unfold consistent, registry_owns, no_leak. cbn. split; [split|].
  - intros sid' p' [[<- <-]|[Hne Hentry]]%lookup_insert_Some.
    + split; [done|]. rewrite lookup_insert_eq. by eexists.
    + destruct (Hlive sid' p' Hentry) as [Hp' [s' Hs']]. split; [done|].
      exists s'. rewrite lookup_insert_ne; [done|]. intros ->. congruence.
  - intros sid1 sid2 q [[<- <-]|[Hne1 H1]]%lookup_insert_Some
                       [[<- Heq]|[Hne2 H2]]%lookup_insert_Some; try done.
    + destruct (Hlive sid2 p H2) as [_ [s' Hs']]. congruence.
    + subst q. destruct (Hlive sid1 p H1) as [_ [s' Hs']]. congruence.
    + by eapply Hinj.
  - intros q [s' [[<- _]|[Hne Hs']]%lookup_insert_Some].
    + exists sid. apply lookup_insert_eq.
    + destruct (Hleak q) as [sid' Hentry]; [by eexists|].
      exists sid'. rewrite lookup_insert_ne; [done|]. intros ->. congruence.
Qed.

(** Erasing an entry and deleting its object keeps it consistent. *)
Lemma consistent_unregister w sid p :
  consistent w -> g_loadedSounds w !! sid = Some p ->
  consistent (set_loadedSounds (delete sid (g_loadedSounds w)) (release p w)).
Proof.
  intros [[Hlive Hinj] Hleak] Hentry.
  unfold consistent, registry_owns, no_leak. cbn. split; [split|].
  - intros sid' p' [Hne Hentry']%lookup_delete_Some.
    destruct (Hlive sid' p' Hentry') as [Hp' [s' Hs']]. split; [done|].
    exists s'. rewrite lookup_delete_ne; [done|].
    intros ->. apply Hne. by eapply Hinj.
  - intros sid1 sid2 q [_ H1]%lookup_delete_Some [_ H2]%lookup_delete_Some.
    by eapply Hinj.
  - intros q [s' [Hne Hs']%lookup_delete_Some].
    destruct (Hleak q) as [sid' Hentry']; [by eexists|].
    exists sid'. rewrite lookup_delete_ne; [done|]. intros ->. congruence.
Qed.

Lemma LoadSound_consistent w filePath soundId :
  consistent w ->
  exists b w', LoadSound filePath soundId w = Some (b, w') /\ consistent w'.
Proof.
  intros Hc. destruct soundId as [sid|].
  2:{ destruct (LoadSound_null_id w filePath) as (text & _ & ->). by eexists _, _. }
  destruct filePath as [filePath|].
  2:{ destruct (LoadSound_null_path w (Some sid)) as (text & _ & ->). by eexists _, _. }
  destruct (g_loadedSounds w !! sid) as [p|] eqn:Hentry.
  { rewrite (LoadSound_known w filePath sid p Hentry). by eexists _, _. }
  destruct (decide (new_nothrow (dom (heap w)) = NULL)) as [Hnull|Hp].
  { rewrite (LoadSound_out_of_memory w filePath sid Hentry Hnull). by eexists _, _. }
  destruct (decide ((decoded w filePath).1 = MA_SUCCESS)) as [Hok|Hko].
  - rewrite (LoadSound_success w filePath sid Hentry Hp Hok).
    eexists _, _. split; [reflexivity|].
    apply (consistent_register w sid _ _ Hc Hentry Hp (new_nothrow_not_live w Hp)).
  - rewrite (LoadSound_decode_failure w filePath sid Hentry Hp Hko). by eexists _, _.
Qed.

Lemma UnloadSound_known w sid p s :
  g_loadedSounds w !! sid = Some p -> heap w !! p = Some s -> p <> NULL ->
  exists l,
    UnloadSound (Some sid) w =
      Some (tt, log l (set_loadedSounds (delete sid (g_loadedSounds w)) (release p w))).
Proof.
  intros Hentry Hlive Hp. unfold UnloadSound. unfold_calls.
  run_step. rewrite Hentry. run_step. cbn [fst snd].
  destruct (sound_is_playing s); repeat run_step;
    (erewrite bind_run by (eapply delete_ma_sound_run; [done | live]));
    run; rewrite release_log, release_update; autorewrite with world;
    eexists; reflexivity.
Qed.

Lemma UnloadSound_consistent w soundId :
  consistent w ->
  exists w', UnloadSound soundId w = Some (tt, w') /\ consistent w'.
Proof.
  intros Hc. destruct soundId as [sid|].
  2:{ destruct (UnloadSound_null w) as (text & _ & ->). by eexists. }
  destruct (g_loadedSounds w !! sid) as [p|] eqn:Hentry.
  2:{ destruct (UnloadSound_unknown w sid Hentry) as (text & _ & ->). by eexists. }
  destruct (proj1 (proj1 Hc) sid p Hentry) as [Hp [s Hlive]].
  destruct (UnloadSound_known w sid p s Hentry Hlive Hp) as [l ->].
  eexists. split; [reflexivity|]. by apply (consistent_unregister w sid p).
Qed.

Lemma ShutdownSoundSystem_consistent w :
  consistent w ->
  exists w',
    ShutdownSoundSystem w = Some (tt, w') /\ consistent w' /\
    g_loadedSounds w' = ∅ /\ heap w' = ∅.
Proof.
  intros [Hown Hleak]. rewrite (ShutdownSoundSystem_owned w Hown).
  eexists. split; [reflexivity|].
  assert (Hempty : release_all (entries w).*2 (heap w) = ∅).
  { apply map_eq. intros q. rewrite release_all_lookup, lookup_empty.
    case_decide as Hq; [done|].
    destruct (heap w !! q) as [s|] eqn:Hs; [|done].
    destruct (Hleak q) as [sid Hentry]; [by eexists|].
    exfalso. apply Hq. apply list_elem_of_fmap. exists (sid, q).
    split; [done|]. by apply entries_spec. }
  split; [|split]; cbn; [|done|done].
  rewrite Hempty. apply (consistent_initial (engine_uninit (g_engine w))).
Qed.

Lemma perform_consistent r w :
  consistent w -> exists w', perform r w = Some (tt, w') /\ consistent w'.
Proof.
  intros Hc. pose proof (proj1 Hc) as Hown.
  destruct r; cbn [perform].
  - destruct (consistent_engine_only _ w Hc (InitializeSoundSystem_engine_only w))
      as (a & w' & Hrun & Hc').
    exists w'. split; [|done]. by erewrite bind_run by exact Hrun.
  - destruct (ShutdownSoundSystem_consistent w Hc) as (w' & Hrun & Hc' & _). by exists w'.
  - destruct (LoadSound_consistent w filePath soundId Hc) as (b & w' & Hrun & Hc').
    exists w'. split; [|done]. by erewrite bind_run by exact Hrun.
  - by apply UnloadSound_consistent.
  - destruct (consistent_local _ _ w Hc (SndPlaySound_local w soundId loop Hown))
      as ([] & w' & ? & ?); by exists w'.
  - destruct (consistent_local _ _ w Hc (StopSound_local w soundId Hown))
      as ([] & w' & ? & ?); by exists w'.
  - destruct (consistent_local _ _ w Hc (PauseSound_local w soundId Hown))
      as ([] & w' & ? & ?); by exists w'.
  - destruct (consistent_local _ _ w Hc (ResumeSound_local w soundId Hown))
      as ([] & w' & ? & ?); by exists w'.
  - destruct (consistent_engine_only _ w Hc (SetMasterVolume_engine_only volume w))
      as ([] & w' & ? & ?); by exists w'.
  - destruct (consistent_local _ _ w Hc (SetSoundVolume_local w soundId volume Hown))
      as ([] & w' & ? & ?); by exists w'.
  - destruct (consistent_local _ _ w Hc (SetSoundPan_local w soundId pan Hown))
      as ([] & w' & ? & ?); by exists w'.
  - destruct (consistent_local _ _ w Hc (SetSoundPitch_local w soundId pitch Hown))
      as ([] & w' & ? & ?); by exists w'.
  - destruct (consistent_local _ _ w Hc (SetSoundPosition_local w soundId x y z Hown))
      as ([] & w' & ? & ?); by exists w'.
  - destruct (consistent_engine_only _ w Hc (SetListenerPosition_engine_only x y z w))
      as ([] & w' & ? & ?); by exists w'.
  - destruct (consistent_engine_only _ w Hc
                (SetListenerOrientation_engine_only forwardX forwardY forwardZ w))
      as ([] & w' & ? & ?); by exists w'.
  - destruct (consistent_local _ _ w Hc (IsSoundPlaying_local w soundId Hown))
      as (a & w' & Hrun & Hc').
    exists w'. split; [|done]. by erewrite bind_run by exact Hrun.
Qed.

End Consistency.

(** Every host program keeps the registry consistent.  From a state in
    which the heap holds exactly the [ma_sound] objects of the registry
    (such as the state before any call), every sequence of calls of the
    sixteen functions, with any arguments, any answers of the engine and any
    answer of [new (std::nothrow)], runs to its end: no call dereferences,
    uninitialises or deletes the address of a [ma_sound] that is not live.
    The final state is again one in which every registered handle is a
    distinct live object and no [ma_sound] is left outside the registry.
    The statement is about the sound objects only.  The engine object is a
    value here, whose lifetime is not tracked: [SoundSystem.cpp] does not
    record whether the engine is initialised, and calls into it before
    [InitializeSoundSystem] or after [ShutdownSoundSystem] are handed to
    miniaudio as they are.  Allocation inside [std::map] and [std::string]
    is not modelled either. *)
Theorem every_program_keeps_the_registry_consistent
    {MA : MiniAudio} {PF : Platform} (program : list request) (w : world) :
  consistent w ->
  exists w', perform_all program w = Some (tt, w') /\ consistent w'.
Proof.
  revert w. induction program as [|r program IH]; intros w Hc.
  - exists w. by split.
  - destruct (perform_consistent r w Hc) as (w1 & Hrun & Hc1).
    destruct (IH w1 Hc1) as (w' & Hrest & Hc').
    exists w'. split; [|done].
    unfold perform_all. cbn [for_each]. by erewrite bind_run by exact Hrun.
Qed.

(** A program that loads two sounds, plays one, unloads it, then uses the
    unloaded identifier again and loads it anew. *)
Lemma every_program_witness :
  exists w',
    perform_all (MA := Ref.accepting) (PF := Ref.platform)
      [Do_InitializeSoundSystem;
       Do_LoadSound (Some "a.wav"%string) (Some "explosion"%string);
       Do_LoadSound (Some "b.wav"%string) (Some "music"%string);
       Do_SndPlaySound (Some "explosion"%string) true;
       Do_UnloadSound (Some "explosion"%string);
       Do_StopSound (Some "explosion"%string);
       Do_LoadSound (Some "c.wav"%string) (Some "explosion"%string);
       Do_SetSoundVolume (Some "music"%string) f_1_5]
      (initial_world (MA := Ref.accepting) Ref.engine0) = Some (tt, w') /\
    consistent w'.
Proof.
  apply (every_program_keeps_the_registry_consistent (MA := Ref.accepting)
           (PF := Ref.platform)).
  apply consistent_initial.
Defined.

(** ** After Shutdown *)

(** Shutdown leaves nothing behind.  From a consistent state,
    [ShutdownSoundSystem] empties the registry and the heap, so that every
    per-sound operation called afterwards, on any identifier, finds no entry:
    it prints the unknown-identifier warning and dereferences nothing, and
    [IsSoundPlaying] answers [false]. *)
Theorem after_shutdown_no_sound_is_left
    {MA : MiniAudio} {PF : Platform} (w : world) :
  consistent w ->
  exists w',
    ShutdownSoundSystem w = Some (tt, w') /\
    g_loadedSounds w' = ∅ /\
    heap w' = ∅ /\
    forall sid,
      warned_no_op (UnloadSound (Some sid)) w' /\
      (forall loop, warned_no_op (SndPlaySound (Some sid) loop) w') /\
      warned_no_op (StopSound (Some sid)) w' /\
      warned_no_op (PauseSound (Some sid)) w' /\
      warned_no_op (ResumeSound (Some sid)) w' /\
      (forall volume, warned_no_op (SetSoundVolume (Some sid) volume) w') /\
      (forall pan, warned_no_op (SetSoundPan (Some sid) pan) w') /\
      (forall pitch, warned_no_op (SetSoundPitch (Some sid) pitch) w') /\
      (forall x y z, warned_no_op (SetSoundPosition (Some sid) x y z) w') /\
      IsSoundPlaying (Some sid) w' = Some (false, w').
Proof.
  intros Hc. destruct (ShutdownSoundSystem_consistent w Hc) as (w' & Hrun & _ & Hreg & Hheap).
  exists w'. split; [exact Hrun|]. split; [exact Hreg|]. split; [exact Hheap|].
  intros sid.
  assert (Habsent : g_loadedSounds w' !! sid = None) by (by rewrite Hreg, lookup_empty).
  repeat split; intros.
  - by apply UnloadSound_unknown.
  - by apply SndPlaySound_unknown.
  - by apply StopSound_unknown.
  - by apply PauseSound_unknown.
  - by apply ResumeSound_unknown.
  - by apply SetSoundVolume_unknown.
  - by apply SetSoundPan_unknown.
  - by apply SetSoundPitch_unknown.
  - by apply SetSoundPosition_unknown.
  - by apply IsSoundPlaying_unknown.
Qed.

Lemma Ref_two_sounds_consistent readable transition s1 s2 :
  consistent (Ref.two_sounds readable transition s1 s2).
Proof.
  split; [apply Ref_two_sounds_owns|].
  assert (Hheap : heap (Ref.two_sounds readable transition s1 s2)
                  = {[ 1%N := s1; 2%N := s2 ]}) by reflexivity.
  intros p [s Hs]. rewrite Hheap in Hs.
  apply lookup_insert_Some in Hs as [[<- _]|[_ [<- _]%lookup_singleton_Some]].
  - by exists "explosion"%string.
  - by exists "music"%string.
Qed.

(** Two playing sounds are shut down; stopping one of them afterwards is a
    warned no-op. *)
Lemma after_shutdown_witness :
  exists w',
    ShutdownSoundSystem (MA := Ref.accepting)
      (Ref.two_sounds (fun _ => true) MA_SUCCESS (Ref.sound_at true 5) (Ref.sound_at true 9))
      = Some (tt, w') /\
    heap w' = ∅ /\
    warned_no_op (PF := Ref.platform)
      (StopSound (MA := Ref.accepting) (PF := Ref.platform) (Some "music"%string)) w'.
Proof.
  destruct (after_shutdown_no_sound_is_left (MA := Ref.accepting) (PF := Ref.platform)
              (Ref.two_sounds (fun _ => true) MA_SUCCESS (Ref.sound_at true 5)
                 (Ref.sound_at true 9))
              (Ref_two_sounds_consistent _ _ _ _))
    as (w' & Hrun & _ & Hheap & Hafter).
  exists w'. split; [exact Hrun|]. split; [exact Hheap|].
  exact (proj1 (proj2 (proj2 (Hafter "music"%string)))).
Defined.

(** ** What LoadSound tells its caller *)

(** The outcome of [LoadSound], for every state and all arguments.  It
    always returns.  When it returns [false] it has printed an error and the
    registry, the heap and the engine are as before.  When it returns [true]
    both arguments were given and the identifier is in the registry.  In
    either case every entry that was there keeps its handle, every live
    object is unchanged, and the engine state is unchanged. *)
Theorem LoadSound_outcome
    {MA : MiniAudio} {PF : Platform} (w : world) (filePath soundId : option string) :
  exists b w' l,
    LoadSound filePath soundId w = Some (b, w') /\
    trace w' = trace w ++ l /\
    (b = false ->
       g_loadedSounds w' = g_loadedSounds w /\ heap w' = heap w /\
       exists text, is_error_text text = true /\ Cerr text ∈ l) /\
    (b = true ->
       exists path sid,
         filePath = Some path /\ soundId = Some sid /\
         is_Some (g_loadedSounds w' !! sid)) /\
    (forall sid p, g_loadedSounds w !! sid = Some p -> g_loadedSounds w' !! sid = Some p) /\
    (forall q s, heap w !! q = Some s -> heap w' !! q = Some s) /\
    g_engine w' = g_engine w.
Proof.
  assert (Herr : forall text, Cerr text ∈ error_events text).
  { intros text. unfold error_events. apply elem_of_app. right. left. }
  destruct soundId as [sid|].
  2:{ destruct (LoadSound_null_id w filePath) as (text & Htext & ->).
      eexists _, _, _. split; [reflexivity|]. split; [reflexivity|].
      repeat split; try done. exists text. by split. }
  destruct filePath as [filePath|].
  2:{ destruct (LoadSound_null_path w (Some sid)) as (text & Htext & ->).
      eexists _, _, _. split; [reflexivity|]. split; [reflexivity|].
      repeat split; try done. exists text. by split. }
  destruct (g_loadedSounds w !! sid) as [p|] eqn:Hentry.
  { rewrite (LoadSound_known w filePath sid p Hentry).
    eexists _, _, _. split; [reflexivity|]. split; [reflexivity|].
    repeat split; try done. intros _. exists filePath, sid.
    repeat split. rewrite registry_log, Hentry. by eexists. }
  destruct (decide (new_nothrow (dom (heap w)) = NULL)) as [Hnull|Hp].
  { rewrite (LoadSound_out_of_memory w filePath sid Hentry Hnull).
    eexists _, _, _. split; [reflexivity|]. split; [reflexivity|].
    repeat split; try done. eexists. split; [|right; apply Herr]. reflexivity. }
  destruct (decide ((decoded w filePath).1 = MA_SUCCESS)) as [Hok|Hko].
  - rewrite (LoadSound_success w filePath sid Hentry Hp Hok).
    pose proof (new_nothrow_not_live w Hp) as Hfresh.
    eexists _, _, _. split; [reflexivity|]. split; [reflexivity|].
    repeat split; try done.
    + intros _. exists filePath, sid. repeat split. cbn.
      rewrite lookup_insert_eq. by eexists.
    + intros sid' p' Hentry'. cbn. rewrite lookup_insert_ne; [done|]. congruence.
    + intros q s Hs. cbn. rewrite lookup_insert_ne; [done|]. congruence.
  - rewrite (LoadSound_decode_failure w filePath sid Hentry Hp Hko).
    eexists _, _, _. split; [reflexivity|]. split; [reflexivity|].
    repeat split; try done. eexists. split; [|].
    2:{ apply elem_of_app. right. apply elem_of_app. left. apply Herr. }
    reflexivity.
Qed.

(** A load that cannot decode returns [false] and changes nothing. *)
Lemma LoadSound_outcome_witness :
  exists w',
    LoadSound (MA := Ref.unreadable) (PF := Ref.platform)
      (Some "missing.wav"%string) (Some "laser"%string)
      (Ref.one_sound (fun _ => false) MA_SUCCESS (Ref.sound_at true 5)) = Some (false, w') /\
    g_loadedSounds w' = {[ "explosion"%string := 1%N ]} /\
    heap w' = {[ 1%N := Ref.sound_at true 5 ]}.
Proof.
  destruct (LoadSound_outcome (MA := Ref.unreadable) (PF := Ref.platform)
              (Ref.one_sound (fun _ => false) MA_SUCCESS (Ref.sound_at true 5))
              (Some "missing.wav"%string) (Some "laser"%string))
    as (b & w' & l & Hrun & _ & Hfalse & _).
  pose proof Hrun as Hb. vm_compute in Hb. injection Hb as Hb _. subst b.
  destruct (Hfalse eq_refl) as (Hreg & Hheap & _).
  exists w'. split; [exact Hrun|]. split; assumption.
Defined.

(** ** Load and Unload *)

(** Load then Unload is a round trip.  When [LoadSound] registers a new
    identifier, [UnloadSound] of that identifier returns and brings the
    registry, the heap and the engine state back to what they were before
    the load: the object that was allocated is deleted and no entry is
    left. *)
Theorem load_then_unload_restores_the_registry
    {MA : MiniAudio} {PF : Platform} (w : world) (filePath sid : string) :
  g_loadedSounds w !! sid = None ->
  new_nothrow (dom (heap w)) <> NULL ->
  (decoded w filePath).1 = MA_SUCCESS ->
  exists w1 w2,
    LoadSound (Some filePath) (Some sid) w = Some (true, w1) /\
    g_loadedSounds w1 !! sid = Some (new_nothrow (dom (heap w))) /\
    UnloadSound (Some sid) w1 = Some (tt, w2) /\
    g_loadedSounds w2 = g_loadedSounds w /\
    heap w2 = heap w /\
    g_engine w2 = g_engine w.
Proof.
  intros Habsent Hp Hok.
  pose proof (LoadSound_success w filePath sid Habsent Hp Hok) as Hload.
  pose proof (new_nothrow_not_live w Hp) as Hfresh.
  set (p := new_nothrow (dom (heap w))) in *.
  match type of Hload with _ = Some (_, ?x) => set (w1 := x) in * end.
  destruct (UnloadSound_known w1 sid p (decoded w filePath).2) as [l Hunload];
    [apply lookup_insert_eq | apply lookup_insert_eq | exact Hp |].
  eexists w1, _. split; [exact Hload|]. split; [apply lookup_insert_eq|].
  split; [exact Hunload|]. cbn. split; [|split; [|reflexivity]].
  - by apply delete_insert_id.
  - by apply delete_insert_id.
Qed.

(** ["laser"] is loaded into the registry of one sound and unloaded. *)
Lemma load_then_unload_witness :
  exists w1 w2,
    LoadSound (MA := Ref.accepting) (PF := Ref.platform)
      (Some "laser.wav"%string) (Some "laser"%string)
      (Ref.one_sound (fun _ => true) MA_SUCCESS (Ref.sound_at true 5)) = Some (true, w1) /\
    UnloadSound (MA := Ref.accepting) (PF := Ref.platform) (Some "laser"%string) w1
      = Some (tt, w2) /\
    g_loadedSounds w2 = {[ "explosion"%string := 1%N ]} /\
    heap w2 = {[ 1%N := Ref.sound_at true 5 ]}.
Proof.
  destruct (load_then_unload_restores_the_registry (MA := Ref.accepting) (PF := Ref.platform)
              (Ref.one_sound (fun _ => true) MA_SUCCESS (Ref.sound_at true 5))
              "laser.wav"%string "laser"%string)
    as (w1 & w2 & Hload & _ & Hunload & Hreg & Hheap & _).
  - reflexivity.
  - vm_compute. discriminate.
  - reflexivity.
  - exists w1, w2. repeat split; assumption.
Defined.

(** Unloading twice.  After [UnloadSound] of a present entry the identifier
    is unknown again: a second [UnloadSound] only prints the warning,
    [IsSoundPlaying] answers [false], and every other entry still has its
    handle. *)
Theorem unload_twice_is_a_warned_no_op
    {MA : MiniAudio} {PF : Platform} (w : world) (sid : string) (p : ptr) (s : ma_sound) :
  g_loadedSounds w !! sid = Some p ->
  heap w !! p = Some s ->
  p <> NULL ->
  exists w',
    UnloadSound (Some sid) w = Some (tt, w') /\
    g_loadedSounds w' !! sid = None /\
    (forall sid', sid' <> sid -> g_loadedSounds w' !! sid' = g_loadedSounds w !! sid') /\
    warned_no_op (UnloadSound (Some sid)) w' /\
    IsSoundPlaying (Some sid) w' = Some (false, w').
Proof.
  intros Hentry Hlive Hp.
  destruct (UnloadSound_known w sid p s Hentry Hlive Hp) as [l ->].
  eexists. split; [reflexivity|].
  match goal with |- g_loadedSounds ?w' !! _ = None /\ _ =>
    assert (Habsent : g_loadedSounds w' !! sid = None) by apply lookup_delete_eq
  end.
  split; [exact Habsent|]. split; [|split].
  - intros sid' Hne. cbn. by apply lookup_delete_ne.
  - by apply UnloadSound_unknown.
  - by apply IsSoundPlaying_unknown.
Qed.

(** The one sound is unloaded twice. *)
Lemma unload_twice_witness :
  exists w',
    UnloadSound (MA := Ref.accepting) (PF := Ref.platform) (Some "explosion"%string)
      (Ref.one_sound (fun _ => true) MA_SUCCESS (Ref.sound_at true 5)) = Some (tt, w') /\
    warned_no_op (PF := Ref.platform)
      (UnloadSound (MA := Ref.accepting) (PF := Ref.platform) (Some "explosion"%string)) w'.
Proof.
  destruct (unload_twice_is_a_warned_no_op (MA := Ref.accepting) (PF := Ref.platform)
              (Ref.one_sound (fun _ => true) MA_SUCCESS (Ref.sound_at true 5))
              "explosion"%string 1%N (Ref.sound_at true 5) eq_refl eq_refl)
    as (w' & Hrun & _ & _ & Hagain & _).
  - discriminate.
  - exists w'. split; assumption.
Defined.

(** ** What follows a Pause *)

(** Stop after Pause does not rewind.  Once a pause has been accepted the
    sound is no longer playing, so [StopSound] finds nothing to stop: its
    only engine call is the playing query, it neither stops nor seeks, and
    the sound stays at the frame it was paused at. *)
Theorem stop_after_pause_does_not_rewind
    {MA : MiniAudio} {PF : Platform} (w : world) (sid : string) (p : ptr) (s : ma_sound) :
  engine_contract ->
  g_loadedSounds w !! sid = Some p ->
  heap w !! p = Some s ->
  (sound_stop s).1 = MA_SUCCESS ->
  exists w1 w2,
    PauseSound (Some sid) w = Some (tt, w1) /\
    StopSound (Some sid) w1 = Some (tt, w2) /\
    engine_calls (trace w2) =
      engine_calls (trace w1) ++ [Call_ma_sound_is_playing p false] /\
    sound_of w2 sid = sound_of w1 sid /\
    position_of w2 sid = position_of w sid.
Proof.
  intros C Hentry Hlive Hok.
  pose proof (PauseSound_known w sid p s Hentry Hlive) as Hpause.
  match type of Hpause with _ = Some (_, ?x) => set (w1 := x) in * end.
  assert (Hentry1 : g_loadedSounds w1 !! sid = Some p) by exact Hentry.
  assert (Hlive1 : heap w1 !! p = Some (sound_stop s).2) by apply lookup_insert_eq.
  pose proof (StopSound_not_playing w1 sid p _ Hentry1 Hlive1 (stop_stops C s Hok)) as Hstop.
  eexists w1, _. split; [exact Hpause|]. split; [exact Hstop|].
  split; [calls|]. split.
  - unfold sound_of. by autorewrite with world.
  - unfold position_of, sound_of. autorewrite with world.
    change (g_loadedSounds w1) with (g_loadedSounds w). rewrite Hentry, Hlive1, Hlive.
    cbn. by rewrite (stop_keeps_cursor C).
Qed.

(** A sound paused at frame 5 and then stopped is still at frame 5. *)
Lemma stop_after_pause_witness :
  exists w1 w2,
    PauseSound (MA := Ref.accepting) (PF := Ref.platform) (Some "explosion"%string)
      (Ref.one_sound (fun _ => true) MA_SUCCESS (Ref.sound_at true 5)) = Some (tt, w1) /\
    StopSound (MA := Ref.accepting) (PF := Ref.platform) (Some "explosion"%string) w1
      = Some (tt, w2) /\
    position_of w2 "explosion" = Some 5%N.
Proof.
  destruct (stop_after_pause_does_not_rewind (MA := Ref.accepting) (PF := Ref.platform)
              (Ref.one_sound (fun _ => true) MA_SUCCESS (Ref.sound_at true 5))
              "explosion"%string 1%N (Ref.sound_at true 5)
              (Ref_contract _ _) eq_refl eq_refl eq_refl)
    as (w1 & w2 & Hpause & Hstop & _ & _ & Hpos).
  exists w1, w2. split; [exact Hpause|]. split; [exact Hstop|]. exact Hpos.
Defined.

(** Play after Pause continues.  [SndPlaySound] rewinds only a sound that is
    playing; on a sound whose pause was accepted it sets the looping flag
    and starts it without stopping or seeking, so playback goes on from the
    frame the sound was paused at, not from frame 0. *)
Theorem play_after_pause_continues
    {MA : MiniAudio} {PF : Platform} (w : world) (sid : string) (p : ptr) (s : ma_sound)
    (loop : bool) :
  engine_contract ->
  g_loadedSounds w !! sid = Some p ->
  heap w !! p = Some s ->
  (sound_stop s).1 = MA_SUCCESS ->
  exists w1 w2 r_start,
    PauseSound (Some sid) w = Some (tt, w1) /\
    SndPlaySound (Some sid) loop w1 = Some (tt, w2) /\
    engine_calls (trace w2) =
      engine_calls (trace w1) ++
        [Call_ma_sound_is_playing p false;
         Call_ma_sound_set_looping p loop;
         Call_ma_sound_start p r_start] /\
    position_of w2 sid = position_of w sid /\
    (r_start = MA_SUCCESS -> playing_of w2 sid = Some true).
Proof.
  intros C Hentry Hlive Hok.
  pose proof (PauseSound_known w sid p s Hentry Hlive) as Hpause.
  match type of Hpause with _ = Some (_, ?x) => set (w1 := x) in * end.
  assert (Hentry1 : g_loadedSounds w1 !! sid = Some p) by exact Hentry.
  assert (Hlive1 : heap w1 !! p = Some (sound_stop s).2) by apply lookup_insert_eq.
  pose proof (SndPlaySound_not_playing w1 sid p _ Hentry1 Hlive1 loop (stop_stops C s Hok))
    as Hplay.
  eexists w1, _, _. split; [exact Hpause|]. split; [exact Hplay|].
  split; [calls|].
  unfold position_of, playing_of.
  rewrite (sound_of_update w1 sid p Hentry1), (sound_of_known w sid p s Hentry Hlive).
  cbn [fmap option_fmap option_map]. split.
  - by rewrite (start_keeps_cursor C), (set_looping_keeps_cursor C), (stop_keeps_cursor C).
  - intros Hstart. by rewrite (start_starts C).
Qed.

(** A sound paused at frame 5 and then played is playing at frame 5. *)
Lemma play_after_pause_witness :
  exists w1 w2,
    PauseSound (MA := Ref.accepting) (PF := Ref.platform) (Some "explosion"%string)
      (Ref.one_sound (fun _ => true) MA_SUCCESS (Ref.sound_at true 5)) = Some (tt, w1) /\
    SndPlaySound (MA := Ref.accepting) (PF := Ref.platform) (Some "explosion"%string) false w1
      = Some (tt, w2) /\
    position_of w2 "explosion" = Some 5%N.
Proof.
  destruct (play_after_pause_continues (MA := Ref.accepting) (PF := Ref.platform)
              (Ref.one_sound (fun _ => true) MA_SUCCESS (Ref.sound_at true 5))
              "explosion"%string 1%N (Ref.sound_at true 5) false
              (Ref_contract _ _) eq_refl eq_refl eq_refl)
    as (w1 & w2 & r & Hpause & Hplay & _ & Hpos & _).
  exists w1, w2. split; [exact Hpause|]. split; [exact Hplay|]. exact Hpos.
Defined.

(** ** The engine-wide functions *)

(** [SetMasterVolume] clamps like the per-sound setter.  In every state it
    makes one engine call, [ma_engine_set_volume], with
    [std::clamp(volume, 0, 1)], and prints that value; the registry and the
    heap are not touched.  The value passed is 0 for an input below 0
    (-0.2 becomes 0.0), 1 for an input above 1 (1.5 becomes 1.0) and the
    input itself otherwise: it lies in [0,1] for every number, and is the
    NaN itself for a NaN. *)
Theorem SetMasterVolume_clamps_numbers {MA : MiniAudio} (w : world) (volume : float) :
  exists w' passed,
    SetMasterVolume volume w = Some (tt, w') /\
    passed = std_clamp volume f_0_0 f_1_0 /\
    trace w' =
      trace w ++ [Engine (Call_ma_engine_set_volume passed);
                  Cout [Str "SoundSystem: Master volume set to "; Flt passed; Str "."]] /\
    g_engine w' = engine_set_volume (g_engine w) passed /\
    g_loadedSounds w' = g_loadedSounds w /\
    heap w' = heap w /\
    (float_lt volume f_0_0 = true -> passed = f_0_0) /\
    (float_lt f_1_0 volume = true -> passed = f_1_0) /\
    (float_lt volume f_0_0 = false -> float_lt f_1_0 volume = false -> passed = volume) /\
    (is_nan volume = false ->
       float_le f_0_0 passed = true /\ float_le passed f_1_0 = true) /\
    (is_nan volume = true -> is_nan passed = true) /\
    (volume = f_1_5 -> passed = f_1_0) /\
    (volume = f_neg_0_2 -> passed = f_0_0).
Proof.
  rewrite SetMasterVolume_run. eexists _, _. split; [reflexivity|].
  split; [reflexivity|]. split; [reflexivity|]. split; [reflexivity|].
  split; [reflexivity|]. split; [reflexivity|].
  split; [|split; [|split; [|split; [|split; [|split]]]]].
  - unfold std_clamp. by intros ->.
  - intros H. unfold std_clamp. destruct (float_lt volume f_0_0) eqn:E; [|by rewrite H].
    destruct (not_below_0_and_above_1 volume E H).
  - unfold std_clamp. by intros -> ->.
  - intros Hnum. by apply std_clamp_between.
  - destruct volume; try discriminate. by rewrite std_clamp_nan.
  - by intros ->.
  - by intros ->.
Qed.

(** [InitializeSoundSystem] returns [true] exactly when [ma_engine_init]
    returns [MA_SUCCESS]; otherwise it reports an error that carries the
    result code.  Either way its one engine call is [ma_engine_init], and it
    does not touch the registry or the heap: sounds loaded before a second
    initialisation stay registered. *)
Theorem InitializeSoundSystem_reports_the_engine {MA : MiniAudio} {PF : Platform} (w : world) :
  exists b w' l,
    InitializeSoundSystem w = Some (b, w') /\
    (b = true <-> (engine_init engine_config_init (g_engine w)).1 = MA_SUCCESS) /\
    g_engine w' = (engine_init engine_config_init (g_engine w)).2 /\
    g_loadedSounds w' = g_loadedSounds w /\
    heap w' = heap w /\
    trace w' =
      trace w ++ Engine (Call_ma_engine_init (engine_init engine_config_init (g_engine w)).1)
                 :: l /\
    (b = true -> l = [Cout [Str "SoundSystem: Initialized successfully."]]) /\
    (b = false ->
     l = error_events
           [Str "SoundSystem ERROR: Failed to initialize miniaudio engine. Result: ";
            Res (engine_init engine_config_init (g_engine w)).1]).
Proof.
  rewrite InitializeSoundSystem_run. eexists _, _, _. split; [reflexivity|].
  split; [apply Z.eqb_eq|]. split; [reflexivity|]. split; [reflexivity|].
  split; [reflexivity|]. split; [reflexivity|].
  destruct (_ =? MA_SUCCESS); split; intros; done.
Qed.
